(** * AudioFileSourceHTTPStream: a shallow embedding and its properties

    The embedded program is [src/AudioFileSourceHTTPStream.cpp], the
    streaming HTTP source of ESP8266Audio with chunked transfer-encoding
    support.  The object's fields and the network it talks to are made
    explicit: every member function becomes a function on a pair of the
    object ([Obj]) and the outside world ([World]: socket, HTTP client,
    clock, status callback and logger). *)

From Stdlib Require Import ZArith List String Ascii Bool Lia.
From Stdlib.Strings Require Import Byte.
From Stdlib Require DecimalString.
Import ListNotations.
Open Scope Z_scope.

(** ** Machine integers

    [uint32_t], [unsigned int], [unsigned long] and [size_t] are 32-bit
    unsigned on the targets, [int] and [signed long] are 32-bit signed.  A
    value is kept as the [Z] it denotes; a conversion writes the wrap-around
    out. *)

Definition wrap32 (z : Z) : Z := z mod 2 ^ 32.

Definition to_int32 (z : Z) : Z :=
  let u := z mod 2 ^ 32 in if u <? 2 ^ 31 then u else u - 2 ^ 32.

(** ** Bytes and the line parser of the C library *)

Definition CR : byte := x0d.
Definition LF : byte := x0a.

Definition byte_val (b : byte) : Z := Z.of_N (Byte.to_N b).

Definition byte_eqb (a b : byte) : bool := Byte.eqb a b.

(** [isspace] of the C locale. *)
Definition is_space (b : byte) : bool :=
  let v := byte_val b in (v =? 32) || ((9 <=? v) && (v <=? 13)).

Definition hex_digit (b : byte) : option Z :=
  let v := byte_val b in
  if (48 <=? v) && (v <=? 57) then Some (v - 48)
  else if (97 <=? v) && (v <=? 102) then Some (v - 87)
  else if (65 <=? v) && (v <=? 70) then Some (v - 55)
  else None.

Fixpoint skip_spaces (s : list byte) : list byte :=
  match s with
  | b :: rest => if is_space b then skip_spaces rest else s
  | [] => []
  end.

(** The value of the longest prefix of hexadecimal digits of [s], [acc]
    being the value of the digits before it. *)
Fixpoint hex_digits (acc : Z) (s : list byte) : Z :=
  match s with
  | b :: rest =>
      match hex_digit b with
      | Some d => hex_digits (acc * 16 + d) rest
      | None => acc
      end
  | [] => acc
  end.

Definition ULONG_MAX : Z := 2 ^ 32 - 1.

(** [strtoul] in base 16, which the %x conversion goes through;
    [unsigned long] has 32 bits on the ESP8266 and the ESP32.  The value of
    the digits, negated modulo 2^32 after a minus sign; [ULONG_MAX] when the
    digits' value does not fit, whatever the sign. *)
Definition strtoul_16 (neg : bool) (digits : list byte) : Z :=
  let v := hex_digits 0 digits in
  if v >? ULONG_MAX then ULONG_MAX
  else if neg then wrap32 (- v) else v.

(** The C string that starts at the first of these bytes: it ends before
    the first NUL. *)
Fixpoint c_string (s : list byte) : list byte :=
  match s with
  | c :: rest => if byte_val c =? 0 then [] else c :: c_string rest
  | [] => []
  end.

(** An optional [0x] or [0X] is skipped when a digit follows it. *)
Definition skip_0x (s : list byte) : list byte :=
  match s with
  | b0 :: bx :: ((d :: _) as rest) =>
      if (byte_val b0 =? 48) && ((byte_val bx =? 120) || (byte_val bx =? 88))
      then match hex_digit d with Some _ => rest | None => s end
      else s
  | _ => s
  end.

Definition EOF : Z := -1.

(** [sscanf (s, "%x", &val)], [s] pointing at these bytes: the number of
    items stored (1 or 0), or [EOF] when the string ends before the
    conversion has read a character; on 0 and [EOF] [val] keeps the value it
    had.  A sign with no digit after it is a matching failure (0 items). *)
Definition sscanf_x (s : list byte) (val : Z) : Z * Z :=
  match skip_spaces (c_string s) with
  | [] => (EOF, val)
  | b :: rest =>
      let '(neg, body) :=
        if byte_val b =? 45 then (true, rest)
        else if byte_val b =? 43 then (false, rest)
        else (false, b :: rest) in
      let body := skip_0x body in
      match body with
      | d :: _ =>
          match hex_digit d with
          | Some _ => (1, strtoul_16 neg body)
          | None => (0, val)
          end
      | [] => (0, val)
      end
  end.

(** ** The outside world

    The HTTP client, the TCP client, the clock, the status callback and the
    logger belong to the platform, not to this file; they are modelled as
    one record [World] with the few operations the source calls.

    - The socket holds the bytes already received ([inbuf]) and a schedule
      of bytes still under way ([later]: each entry arrives the given number
      of milliseconds after the one before it).
    - One pass through the scheduler ([yield]) takes one tick of the
      millisecond clock, so a wait loop bounded by [t] ms runs [t] passes at
      most.
    - [server] gives the response to the n-th GET request.
    - Everything the program reports (status callback, log lines) or asks
      the transport to do (begin, GET, end, stop, delay) is recorded in
      [trace], most recent first. *)

Inductive Status : Type :=
  | STATUS_HTTPFAIL | STATUS_DISCONNECTED | STATUS_RECONNECTING
  | STATUS_RECONNECTED | STATUS_NODATA.

Inductive Event : Type :=
  | EvStatus (code : Status) (msg : string)
  | EvLog (msg : string)
  | EvBegin (url : string)
  | EvGET
  | EvEnd
  | EvStop
  | EvDelay (ms : Z).

Definition Schedule : Type := list (nat * list byte).

Record Response : Type := mkResponse {
  r_code : Z;                 (* what http.GET() returns *)
  r_te : option string;       (* the Transfer-Encoding header, if any *)
  r_size : Z;                 (* http.getSize(): Content-Length, or -1 *)
  r_alive : bool;             (* the socket is connected after the headers *)
  r_body : list byte;         (* body bytes received with the headers *)
  r_later : Schedule          (* body bytes that arrive afterwards *)
}.

Record World : Type := mkWorld {
  now : Z;                    (* milliseconds since boot *)
  connected : bool;
  inbuf : list byte;
  later : Schedule;
  hdr_te : option string;
  hdr_size : Z;
  server : nat -> Response;
  requests : nat;             (* GET requests issued so far *)
  trace : list Event;
  esp32 : bool;               (* built with ESP32 defined *)
  stream_timeout : nat;       (* Stream::setTimeout value, in ms *)
  junk : byte * byte          (* what an uninitialised crlf[] holds *)
}.

Definition set_socket (c : bool) (b : list byte) (l : Schedule) (w : World) : World :=
  mkWorld (now w) c b l (hdr_te w) (hdr_size w) (server w) (requests w)
          (trace w) (esp32 w) (stream_timeout w) (junk w).

Definition set_inbuf (b : list byte) (w : World) : World :=
  set_socket (connected w) b (later w) w.

Definition set_now (t : Z) (w : World) : World :=
  mkWorld t (connected w) (inbuf w) (later w) (hdr_te w) (hdr_size w)
          (server w) (requests w) (trace w) (esp32 w) (stream_timeout w) (junk w).

Definition set_trace (t : list Event) (w : World) : World :=
  mkWorld (now w) (connected w) (inbuf w) (later w) (hdr_te w) (hdr_size w)
          (server w) (requests w) t (esp32 w) (stream_timeout w) (junk w).

Definition emit (e : Event) (w : World) : World := set_trace (e :: trace w) w.

(** Bytes of the schedule that have arrived after [ms] milliseconds, and
    what is still under way. *)
Fixpoint elapse (ms : nat) (l : Schedule) : list byte * Schedule :=
  match l with
  | [] => ([], [])
  | (d, bs) :: rest =>
      if (d <=? ms)%nat
      then let '(a, r) := elapse (ms - d) rest in (bs ++ a, r)
      else ([], (d - ms, bs)%nat :: rest)
  end.

Definition advance (ms : nat) (w : World) : World :=
  let '(a, r) := elapse ms (later w) in
  set_now (now w + Z.of_nat ms) (set_socket (connected w) (inbuf w ++ a) r w).

(** All bytes the socket will ever deliver, in order. *)
Definition pending (w : World) : list byte :=
  inbuf w ++ List.concat (map snd (later w)).

Definition millis (w : World) : Z := wrap32 (now w).
Definition yield (w : World) : World := advance 1 w.
Definition delay (ms : Z) (w : World) : World :=
  advance (Z.to_nat (wrap32 ms)) (emit (EvDelay ms) w).

Definition cb_st (code : Status) (msg : string) (w : World) : World :=
  emit (EvStatus code msg) w.
Definition audioLogger_printf (msg : string) (w : World) : World :=
  emit (EvLog msg) w.

(** WiFiClient *)
Definition client_available (w : World) : Z := Z.of_nat (List.length (inbuf w)).

Definition client_read (n : nat) (w : World) : list byte * World :=
  (firstn n (inbuf w), set_inbuf (skipn n (inbuf w)) w).

Definition client_stop (w : World) : World :=
  emit EvStop (set_socket false [] [] w).

Definition client_connected (w : World) : bool :=
  connected w || (0 <? client_available w).

(** Stream::timedRead: one byte, waiting [stream_timeout] ms at most. *)
Fixpoint timedRead_loop (fuel : nat) (w : World) : option byte * World :=
  match fuel with
  | O => (None, w)
  | S f =>
      match inbuf w with
      | b :: rest => (Some b, set_inbuf rest w)
      | [] => timedRead_loop f (yield w)
      end
  end.

Definition timedRead (w : World) : option byte * World :=
  match stream_timeout w with
  | O => match inbuf w with
         | b :: rest => (Some b, set_inbuf rest w)
         | [] => (None, w)
         end
  | t => timedRead_loop t w
  end.

(** Stream::readStringUntil: bytes up to the terminator, which is consumed
    and not returned; stops when a byte fails to come in time.  Every round
    of its loop takes one byte off the socket, hence the bound. *)
Fixpoint readStringUntil_loop (fuel : nat) (term : byte) (acc : list byte)
    (w : World) : list byte * World :=
  match fuel with
  | O => (rev acc, w)
  | S f =>
      match timedRead w with
      | (Some c, w1) =>
          if byte_eqb c term then (rev acc, w1)
          else readStringUntil_loop f term (c :: acc) w1
      | (None, w1) => (rev acc, w1)
      end
  end.

Definition client_readStringUntil (term : byte) (w : World) : list byte * World :=
  readStringUntil_loop (S (List.length (pending w))) term [] w.

(** HTTPClient *)
Definition http_connected (w : World) : bool := client_connected w.

Definition http_begin (url : string) (w : World) : World := emit (EvBegin url) w.

Definition http_GET (w : World) : Z * World :=
  let r := server w (requests w) in
  (r_code r,
   emit EvGET
     (mkWorld (now w) (r_alive r) (r_body r) (r_later r) (r_te r) (r_size r)
              (server w) (S (requests w)) (trace w) (esp32 w)
              (stream_timeout w) (junk w))).

Definition http_end (w : World) : World := emit EvEnd (set_socket false [] [] w).

Definition http_hasHeader (w : World) : bool :=
  match hdr_te w with
  | Some v => negb (String.eqb v EmptyString)
  | None => false
  end.

Definition http_header (w : World) : string :=
  match hdr_te w with Some v => v | None => EmptyString end.

Definition http_getSize (w : World) : Z := hdr_size w.

Definition HTTP_CODE_OK : Z := 200.

(** ** The object

    Modelled from the spec: the class declaration
    (AudioFileSourceHTTPStream.h) is not among the sources.  The fields are
    the ones the member functions assign and read; the spec lists them in
    its data model (url, position, totalSize, isChunked, eof,
    reconnectAttemptsMax, reconnectDelay, remainingInChunk).  Their C types
    follow the way the source uses them: [pos], [size], [next_chunk],
    [reconnectTries] and [reconnectDelayMs] are [int] (the source casts
    [pos - size] to [uint32_t], compares [next_chunk] with [-1] and with
    [0], and assigns [int] results to them); [saveURL] is a [char] array
    whose capacity is [saveURL_size]. *)

Inductive ReadImpl : Type := ReadRegular | ReadChunked.

Record Obj : Type := mkObj {
  pos : Z;
  size : Z;
  next_chunk : Z;
  is_chunked : bool;
  eof : bool;
  readImpl : ReadImpl;
  reconnectTries : Z;
  reconnectDelayMs : Z;
  saveURL : string
}.

Definition saveURL_size : nat := 128.

Definition set_pos (v : Z) (o : Obj) : Obj :=
  mkObj v (size o) (next_chunk o) (is_chunked o) (eof o) (readImpl o)
        (reconnectTries o) (reconnectDelayMs o) (saveURL o).
Definition set_size (v : Z) (o : Obj) : Obj :=
  mkObj (pos o) v (next_chunk o) (is_chunked o) (eof o) (readImpl o)
        (reconnectTries o) (reconnectDelayMs o) (saveURL o).
Definition set_next_chunk (v : Z) (o : Obj) : Obj :=
  mkObj (pos o) (size o) v (is_chunked o) (eof o) (readImpl o)
        (reconnectTries o) (reconnectDelayMs o) (saveURL o).
Definition set_mode (c : bool) (f : ReadImpl) (o : Obj) : Obj :=
  mkObj (pos o) (size o) (next_chunk o) c (eof o) f
        (reconnectTries o) (reconnectDelayMs o) (saveURL o).
Definition set_eof (v : bool) (o : Obj) : Obj :=
  mkObj (pos o) (size o) (next_chunk o) (is_chunked o) v (readImpl o)
        (reconnectTries o) (reconnectDelayMs o) (saveURL o).
Definition set_saveURL (v : string) (o : Obj) : Obj :=
  mkObj (pos o) (size o) (next_chunk o) (is_chunked o) (eof o) (readImpl o)
        (reconnectTries o) (reconnectDelayMs o) v.

(** Modelled from the spec: the setter of the two reconnect settings is
    declared in the header, which is not among the sources; the spec has
    both values as configuration of the session. *)
Definition SetReconnect (tries delayms : Z) (o : Obj) : Obj :=
  mkObj (pos o) (size o) (next_chunk o) (is_chunked o) (eof o) (readImpl o)
        tries delayms (saveURL o).

(** The state a member function runs in: the object and the world. *)
Definition St : Type := Obj * World.

(** A caller's buffer pointer. *)
Inductive Ptr : Type := NULL | Buffer.

(** What a read hands back: the returned count, the bytes it stored at the
    start of the caller's buffer, and the state it leaves. *)
Definition ReadResult : Type := Z * list byte * St.

(** The bytes the caller may use: the first [count] stored ones. *)
Definition returned (r : ReadResult) : list byte :=
  let '(n, stored, _) := r in firstn (Z.to_nat n) stored.

(** ** Member functions *)

(** A [while (cond) yield();] loop; [fuel] bounds its rounds. *)
Fixpoint while_yield (fuel : nat) (cond : World -> bool) (w : World) : World :=
  match fuel with
  | O => w
  | S f => if cond w then while_yield f cond (yield w) else w
  end.

(** [new AudioFileSourceHTTPStream()]; [raw] is the memory the object is
    built in, which fields the constructor does not assign keep. *)
Definition AudioFileSourceHTTPStream (raw : Obj) : Obj :=
  mkObj 0 (size raw) 0 (is_chunked raw) false (readImpl raw)
        0 (reconnectDelayMs raw) EmptyString.

Definition verifyCrlf (s : St) : bool * St :=
  let '(o, w) := s in
  let '(got, w) := client_read 2 w in
  let '(c0, c1) :=
    match got with
    | [] => junk w
    | [a] => (a, snd (junk w))
    | a :: b :: _ => (a, b)
    end in
  (byte_eqb c0 CR && byte_eqb c1 LF, (o, w)).

(** The wait of getChunkSize for the first byte of the size line. *)
Definition wait_first_byte (w : World) : World :=
  let start := millis w in
  while_yield 1500
    (fun w => (client_available w =? 0)
              && (to_int32 (wrap32 (millis w - start)) <? 1500)) w.

Definition getChunkSize (s : St) : Z * St :=
  let '(o, w) := s in
  let w := wait_first_byte w in
  if client_available w =? 0 then (-1, (o, w))
  else
    let '(length, w) := client_readStringUntil CR w in
    let '(lf, w) := client_readStringUntil LF w in
    let '(ret, val) := sscanf_x length 0 in
    if negb (ret =? 0) then (to_int32 val, (o, w)) else (-1, (o, w)).

Definition open (url : string) (s : St) : bool * St :=
  let '(o, w) := s in
  let o := set_pos 0 o in
  let w := http_begin url w in
  let '(code, w) := http_GET w in
  if negb (code =? HTTP_CODE_OK) then
    let w := http_end w in
    let w := cb_st STATUS_HTTPFAIL "Can't open HTTP request" w in
    (false, (o, w))
  else
    let finish (s : St) : bool * St :=
      let '(o, w) := s in
      let o := set_size (to_int32 (http_getSize w)) o in
      let o := set_saveURL (String.substring 0 (saveURL_size - 1) url) o in
      (true, (o, w)) in
    if http_hasHeader w then
      let w := audioLogger_printf ("Transfer-Encoding: " ++ http_header w) w in
      if String.eqb (http_header w) "chunked" then
        let '(n, (o, w)) := getChunkSize (o, w) in
        let o := set_next_chunk n o in
        if -1 =? next_chunk o then (false, (o, w))
        else finish (set_mode true ReadChunked o, w)
      else finish (set_mode false ReadRegular o, w)
    else
      let w := audioLogger_printf "No Transfer-Encoding" w in
      finish (set_mode false ReadRegular o, w).

(** [new AudioFileSourceHTTPStream(url)] *)
Definition AudioFileSourceHTTPStream_url (url : string) (raw : Obj) (w : World) : St :=
  let o := mkObj (pos raw) (size raw) 0 (is_chunked raw) (eof raw) (readImpl raw)
                 0 (reconnectDelayMs raw) EmptyString in
  snd (open url (o, w)).

Definition close (s : St) : bool * St :=
  let '(o, w) := s in
  let w :=
    if esp32 w then
      if http_connected w && client_connected w
         && negb (client_available w =? 0)
      then client_stop w else w
    else w in
  let w := http_end w in
  (true, (set_eof true o, w)).

Definition isOpen (s : St) : bool :=
  let '(o, w) := s in http_connected w && negb (eof o).

Definition getSize (s : St) : Z := wrap32 (size (fst s)).
Definition getPos (s : St) : Z := wrap32 (pos (fst s)).

Definition seek (p : Z) (dir : Z) (s : St) : bool * St :=
  let '(o, w) := s in
  (false,
   (o, audioLogger_printf
         "ERROR! AudioFileSourceHTTPStream::seek not implemented!" w)).

Definition reconnect_msg (i : Z) : string :=
  "Attempting to reconnect, try " ++ DecimalString.NilZero.string_of_int (Z.to_int i).

(** The [for] loop of readInternal: [n] rounds are left, [i] is the loop
    counter ([open] does not assign [reconnectTries]). *)
Fixpoint reconnect_loop (n : nat) (i : Z) (s : St) : St :=
  match n with
  | O => s
  | S n' =>
      let '(o, w) := s in
      let w := cb_st STATUS_RECONNECTING (reconnect_msg i) w in
      let w := delay (reconnectDelayMs o) w in
      let '(ok, (o, w)) := open (saveURL o) (o, w) in
      if ok then (o, cb_st STATUS_RECONNECTED "Stream reconnected" w)
      else reconnect_loop n' (i + 1) (o, w)
  end.

(** One pass through the body of readInternal, from the label [retry] to a
    [return] or to the [goto retry]; [len] is assigned on the way and keeps
    its value across the jump. *)
Inductive PassResult : Type :=
  | Return (n : Z) (stored : list byte) (s : St)
  | GotoRetry (len : Z) (s : St).

(** The block under [if (!http.connected())]; the flag tells that it ends
    in [return 0]. *)
Definition reconnect (s : St) : bool * St :=
  let '(o, w) := s in
  let w := cb_st STATUS_DISCONNECTED "Stream disconnected" w in
  let w := http_end w in
  let '(o, w) := reconnect_loop (Z.to_nat (reconnectTries o)) 0 (o, w) in
  if negb (http_connected w)
  then (true, (o, cb_st STATUS_DISCONNECTED "Unable to reconnect" w))
  else (false, (o, w)).

(** [if ((size > 0) && (len > (uint32_t)(pos - size))) len = pos - size;] *)
Definition clamp_len (o : Obj) (len : Z) : Z :=
  if (size o >? 0) && (len >? wrap32 (pos o - size o))
  then wrap32 (pos o - size o) else len.

(** The wait of the blocking variant. *)
Definition wait_for_data (len : Z) (w : World) : World :=
  let start := to_int32 (millis w) in
  while_yield 500
    (fun w => (client_available w <? to_int32 len)
              && (wrap32 (millis w - start) <? 500)) w.

(** The pass from the test of [size] on. *)
Definition readInternal_connected (len : Z) (nonBlock : bool) (s : St) : PassResult :=
  let '(o, w) := s in
  if (size o >? 0) && (pos o >=? size o) then Return 0 [] (o, w)
  else
    (* Can't read past EOF... *)
    let len := clamp_len o len in
    let w := if negb nonBlock then wait_for_data len w else w in
    let avail := client_available w in
    if negb nonBlock && (avail =? 0) then
      let w := cb_st STATUS_NODATA "No stream data available" w in
      let '(_, s) := close (o, w) in
      GotoRetry len s
    else if avail =? 0 then Return 0 [] (o, w)
    else
      let len := if avail <? len then avail else len in
      let '(got, w) := client_read (Z.to_nat len) w in
      let read := to_int32 (Z.of_nat (List.length got)) in
      Return (wrap32 read) got (set_pos (to_int32 (pos o + read)) o, w).

Definition readInternal_pass (len : Z) (nonBlock : bool) (s : St) : PassResult :=
  if negb (http_connected (snd s)) then
    let '(gave_up, s) := reconnect s in
    if gave_up then Return 0 [] s else readInternal_connected len nonBlock s
  else readInternal_connected len nonBlock s.

(** readInternal; [fuel] bounds the number of passes, [None] means the
    bound was reached before a [return]. *)
Fixpoint readInternal (fuel : nat) (len : Z) (nonBlock : bool) (s : St)
    : option ReadResult :=
  match fuel with
  | O => None
  | S f =>
      match readInternal_pass len nonBlock s with
      | Return n stored s' => Some (n, stored, s')
      | GotoRetry len' s' => readInternal f len' nonBlock s'
      end
  end.

Definition readRegular (fuel : nat) (len : Z) (nonBlock : bool) (s : St)
    : option ReadResult :=
  readInternal fuel len nonBlock s.

(** The block under [if (!next_chunk)] of readChunked and the [return]
    after it; [p] is the local [pos], [stored] what the buffer holds. *)
Definition chunk_boundary (p : Z) (stored : list byte) (s : St) : ReadResult :=
  let '(o, w) := s in
  if next_chunk o =? 0 then
    let '(ok, (o, w)) := verifyCrlf (o, w) in
    if negb ok then
      let w := audioLogger_printf
                 "Couldn't read CRLF after chunk, something is wrong !!" w in
      (0, stored, (o, w))
    else
      let '(n, (o, w)) := getChunkSize (o, w) in
      let o := set_next_chunk n o in
      if next_chunk o <? 0 then
        (* timeout EOF *)
        let '(_, s) := close (o, w) in (p, stored, s)
      else (p, stored, (o, w))
  else (p, stored, (o, w)).

Definition readChunked (fuel : nat) (len : Z) (nonBlock : bool) (s : St)
    : option ReadResult :=
  let '(o, w) := s in
  if len >? 0 then
    if len >=? wrap32 (next_chunk o) then
      let first :=
        if negb (next_chunk o =? 0) then
          match readInternal fuel (wrap32 (next_chunk o)) nonBlock (o, w) with
          | Some (bytesRead, stored, (o, w)) =>
              let o := set_next_chunk (to_int32 (next_chunk o - bytesRead)) o in
              Some (wrap32 (0 + bytesRead), stored, (o, w))
          | None => None
          end
        else Some (0, [], (o, w)) in
      match first with
      | Some (p, stored, s) =>
          let len := wrap32 (len - p) in
          Some (chunk_boundary p stored s)
      | None => None
      end
    else
      match readInternal fuel len nonBlock (o, w) with
      | Some (bytesRead, stored, (o, w)) =>
          let o := set_next_chunk (to_int32 (next_chunk o - bytesRead)) o in
          Some (wrap32 (0 + bytesRead), stored, (o, w))
      | None => None
      end
  else Some (0, [], (o, w)).

Definition call_readImpl (fuel : nat) (len : Z) (nonBlock : bool) (s : St)
    : option ReadResult :=
  match readImpl (fst s) with
  | ReadRegular => readRegular fuel len nonBlock s
  | ReadChunked => readChunked fuel len nonBlock s
  end.

Definition read (fuel : nat) (data : Ptr) (len : Z) (s : St) : option ReadResult :=
  match data with
  | NULL =>
      let '(o, w) := s in
      Some (0, [], (o, audioLogger_printf
                        "ERROR! AudioFileSourceHTTPStream::read passed NULL data" w))
  | Buffer => call_readImpl fuel len false s
  end.

Definition readNonBlock (fuel : nat) (data : Ptr) (len : Z) (s : St)
    : option ReadResult :=
  match data with
  | NULL =>
      let '(o, w) := s in
      Some (0, [], (o, audioLogger_printf
                        "ERROR! AudioFileSourceHTTPStream::readNonBlock passed NULL data" w))
  | Buffer => call_readImpl fuel len true s
  end.

(** ** Sample worlds *)

Definition quiet_server : nat -> Response :=
  fun _ => mkResponse (-1) None (-1) false [] [].

Definition raw_memory : Obj :=
  mkObj 0 0 0 false false ReadRegular 0 0 EmptyString.

Definition b (s : string) : list byte := list_byte_of_string s.

Definition wiki_stream : list byte :=
  b "4" ++ [CR; LF] ++ b "Wiki" ++ [CR; LF] ++ b "5" ++ [CR; LF] ++ b "pedia"
    ++ [CR; LF] ++ b "0" ++ [CR; LF] ++ [CR; LF].

Definition serve (r : Response) (rest : nat -> Response) : nat -> Response :=
  fun n => match n with O => r | S n' => rest n' end.

Definition wiki_world : World :=
  mkWorld 0 false [] [] None (-1)
    (serve (mkResponse 200 (Some "chunked"%string) (-1) true wiki_stream []) quiet_server)
    0 [] false 1000 (x00, x00).

(** Two worlds that differ in the record of reported events only. *)
Definition same_transport (w1 w2 : World) : Prop :=
  set_trace [] w1 = set_trace [] w2.


(** The peer closes the connection. *)
Definition hangup (s : St) : St := (fst s, set_socket false [] [] (snd s)).

Definition fresh (w : World) : St := (AudioFileSourceHTTPStream raw_memory, w).

Definition world_serving (srv : nat -> Response) : World :=
  mkWorld 0 false [] [] None (-1) srv 0 [] false 1000 (x00, x00).

(** A resource that declares 10 bytes and sends 20. *)
Definition oversized_world : World :=
  world_serving
    (serve (mkResponse 200 None 10 true (b "0123456789ABCDEFGHIJ") []) quiet_server).

Definition oversized_session : St := snd (open "http://h/a" (fresh oversized_world)).

(** A chunked resource whose first size line is not hexadecimal. *)
Definition malformed_response : Response :=
  mkResponse 200 (Some "chunked"%string) (-1) true (b "zz" ++ [CR; LF] ++ b "hello") [].

Definition malformed_world : World := world_serving (serve malformed_response quiet_server).

(** A resource that answers the first request with three bytes and the
    second one with a malformed chunked body. *)
Definition flaky_world : World :=
  world_serving
    (serve (mkResponse 200 None (-1) true (b "abc") [])
       (serve malformed_response quiet_server)).

Definition flaky_session : St :=
  snd (open "http://h/a" (SetReconnect 1 100 (AudioFileSourceHTTPStream raw_memory), flaky_world)).

(** The chunked session of the round-trip test: the whole body
    4 CRLF Wiki CRLF 5 CRLF pedia CRLF 0 CRLF CRLF is in the socket. *)
Definition wiki_session : St := snd (open "http://h/w" (fresh wiki_world)).

(** The read variant a caller picks for one call. *)
Definition read_variant (nonBlock : bool) (passes : nat) (len : Z) (s : St)
    : option ReadResult :=
  if nonBlock then readNonBlock passes Buffer len s else read passes Buffer len s.

(** A caller that reads until a call returns no bytes and collects what it
    was given.  Call number [i] asks for [lens i] bytes, through
    readNonBlock when [nb i] and through read otherwise; [calls] bounds the
    number of calls and [passes] the passes of each low-level read. *)
Fixpoint read_to_end (calls : nat) (lens : nat -> Z) (nb : nat -> bool)
    (passes : nat) (i : nat) (s : St) : option (list byte) :=
  match calls with
  | O => None
  | S c =>
      match read_variant (nb i) passes (lens i) s with
      | None => None
      | Some (n, stored, s') =>
          if n =? 0 then Some []
          else option_map (app (returned (n, stored, s')))
                          (read_to_end c lens nb passes (S i) s')
      end
  end.

(** The state of the round-trip session once [k] bytes of the payload have
    been handed out. *)
Definition wiki_at (k : nat) : St :=
  (mkObj (Z.of_nat k) (-1)
         (if (k <? 4)%nat then 4 - Z.of_nat k else 9 - Z.of_nat k)
         true false ReadChunked 0 0 "http://h/w",
   mkWorld 0 true
           (skipn (if (k <? 4) then 3 + k else if (k <? 9) then 8 + k else 22)%nat
                  wiki_stream) []
           (Some "chunked"%string) (-1) (server wiki_world) 1
           [EvLog "Transfer-Encoding: chunked"; EvGET; EvBegin "http://h/w"]
           false 1000 (x00, x00)).


Definition wiki_response : Response :=
  mkResponse 200 (Some "chunked"%string) (-1) true wiki_stream [].

(** A chunked resource whose first chunk has 10 bytes; a second request is
    answered with the round-trip body. *)
Definition resumed_world : World :=
  world_serving
    (serve (mkResponse 200 (Some "chunked"%string) (-1) true
              (b "a" ++ [CR; LF] ++ b "0123456789" ++ [CR; LF]) [])
       (serve wiki_response quiet_server)).

Definition resumed_session : St :=
  snd (open "http://h/r"
         (SetReconnect 1 100 (AudioFileSourceHTTPStream raw_memory), resumed_world)).



(** A resource that answers with an empty body and sends nothing. *)
Definition mute_response : Response := mkResponse 200 None (-1) true [] [].

(** It answers three requests that way and refuses the following ones. *)
Definition mute_world : World :=
  world_serving (serve mute_response (serve mute_response (serve mute_response quiet_server))).

Definition mute_session : St :=
  snd (open "http://h/m"
         (SetReconnect 1 100 (AudioFileSourceHTTPStream raw_memory), mute_world)).

(** It answers every request that way. *)
Definition mute_forever_session : St :=
  snd (open "http://h/m"
         (SetReconnect 1 100 (AudioFileSourceHTTPStream raw_memory),
          world_serving (fun _ => mute_response))).

Definition is_nodata (e : Event) : bool :=
  match e with EvStatus STATUS_NODATA _ => true | _ => false end.

(** How often the no-data status was reported. *)
Definition nodata_reports (w : World) : nat :=
  List.length (filter is_nodata (trace w)).

(** A regular resource of unknown length that sends three bytes per
    request. *)
Definition abc_world : World :=
  world_serving
    (serve (mkResponse 200 None (-1) true (b "abc") [])
       (serve (mkResponse 200 None (-1) true (b "def") []) quiet_server)).

Definition abc_session : St :=
  snd (open "http://h/abc"
         (SetReconnect 1 100 (AudioFileSourceHTTPStream raw_memory), abc_world)).

(** The mute resource read with the reconnect settings of the constructor
    (no attempts). *)
Definition idle_session : St := snd (open "http://h/m" (fresh mute_world)).

(** ** Notions used in the statements *)

(** The part of the world that only a request, an end or a report can
    change. *)
Definition frame (w : World) :=
  (connected w, hdr_te w, hdr_size w, server w, requests w, trace w,
   esp32 w, stream_timeout w, junk w).

(** [w'] is [w] after some time has passed and nothing else. *)
Definition later_than (w w' : World) : Prop :=
  frame w' = frame w
  /\ pending w' = pending w
  /\ (exists a, inbuf w' = inbuf w ++ a)
  /\ now w <= now w'.

(** The number of GET requests issued so far. *)
Definition req (s : St) : nat := requests (snd s).

(** What the passes of a blocking read keep true on the resource that
    accepts every request and never sends a byte. *)
Definition mute_inv (s : St) : Prop :=
  server (snd s) = (fun _ => mute_response)
  /\ reconnectTries (fst s) = 1
  /\ size (fst s) = -1
  /\ readImpl (fst s) = ReadRegular
  /\ pending (snd s) = [].

(** ** Well-formed chunked bodies

    What a server sends after the headers of a chunked response: size
    lines, each followed by its payload and the delimiter, closed by a size
    line of value 0 and the final delimiter.  A size line is whatever
    sscanf with the x conversion reads as the size (so capitals, leading
    zeros and chunk extensions are covered); [chunked_body s cs] says that
    the bytes [s] carry the chunks [cs]. *)
Inductive chunked_body : list byte -> list (list byte) -> Prop :=
  | body_last : forall l,
      ~ In CR l -> sscanf_x l 0 = (1, 0) ->
      chunked_body (l ++ [CR; LF; CR; LF]) []
  | body_chunk : forall l c rest cs,
      ~ In CR l -> c <> [] -> Z.of_nat (List.length c) < 2 ^ 31 ->
      sscanf_x l 0 = (1, Z.of_nat (List.length c)) ->
      chunked_body rest cs ->
      chunked_body (l ++ CR :: LF :: c ++ CR :: LF :: rest) (c :: cs).

(** A chunked session inside a chunk: [p] is what is left of the payload of
    the current chunk, and the socket holds it, the delimiter and [tail]. *)
Definition in_chunk (p tail : list byte) (s : St) : Prop :=
  readImpl (fst s) = ReadChunked
  /\ size (fst s) <= 0
  /\ next_chunk (fst s) = Z.of_nat (List.length p)
  /\ inbuf (snd s) = p ++ CR :: LF :: tail
  /\ later (snd s) = [].

(** A chunked session after the size line of value 0: only the final
    delimiter is left. *)
Definition at_end (s : St) : Prop :=
  readImpl (fst s) = ReadChunked
  /\ next_chunk (fst s) = 0
  /\ inbuf (snd s) = [CR; LF]
  /\ later (snd s) = [].

(** [body_state cs s]: the session [s] has the chunks [cs] still to hand
    out, the first of them being the rest of the current chunk. *)
Inductive body_state : list (list byte) -> St -> Prop :=
  | state_end : forall s, at_end s -> body_state [] s
  | state_in : forall p tail cs s,
      p <> [] -> Z.of_nat (List.length p) < 2 ^ 31 ->
      in_chunk p tail s -> chunked_body tail cs ->
      body_state (p :: cs) s.





(** A byte that is a hexadecimal digit. *)
Definition is_hex (c : byte) : Prop := exists d, hex_digit c = Some d.

(** The fields of the object that a read leaves alone unless it re-opens
    the resource: all but the position and eof. *)
Definition same_settings (o o' : Obj) : Prop :=
  size o' = size o /\ next_chunk o' = next_chunk o
  /\ is_chunked o' = is_chunked o /\ readImpl o' = readImpl o
  /\ reconnectTries o' = reconnectTries o
  /\ reconnectDelayMs o' = reconnectDelayMs o
  /\ saveURL o' = saveURL o.

(** The fields that no read changes unless it re-opens the resource. *)
Definition same_session (o o' : Obj) : Prop :=
  size o' = size o /\ is_chunked o' = is_chunked o /\ readImpl o' = readImpl o
  /\ reconnectTries o' = reconnectTries o
  /\ reconnectDelayMs o' = reconnectDelayMs o
  /\ saveURL o' = saveURL o.
(** ** seek and close *)

(** C8: for every state and every pair of arguments, seek returns false and
    leaves the position and all other state of the object unchanged; the
    transport is untouched too, the one effect is the line handed to the
    logger. *)
Theorem C8_seek_returns_false_state_unchanged :
  forall (s : St) (p dir : Z),
    fst (seek p dir s) = false
    /\ fst (snd (seek p dir s)) = fst s
    /\ getPos (snd (seek p dir s)) = getPos s
    /\ getSize (snd (seek p dir s)) = getSize s
    /\ isOpen (snd (seek p dir s)) = isOpen s
    /\ same_transport (snd (snd (seek p dir s))) (snd s)
    /\ exists line, trace (snd (snd (seek p dir s))) = EvLog line :: trace (snd s).
Proof.
  intros [o w] p dir. unfold seek, getPos, getSize, isOpen, same_transport. simpl.
  repeat split; eauto.
Qed.

Lemma http_end_disconnects : forall w, http_connected (http_end w) = false.
Proof. intros w. reflexivity. Qed.

Lemma close_result : forall s, fst (close s) = true.
Proof. intros [o w]. reflexivity. Qed.

Lemma close_sets_eof : forall s, eof (fst (snd (close s))) = true.
Proof. intros [o w]. reflexivity. Qed.

Lemma close_disconnects : forall s, http_connected (snd (snd (close s))) = false.
Proof. intros [o w]. reflexivity. Qed.

Lemma close_drains :
  forall s, inbuf (snd (snd (close s))) = [] /\ later (snd (snd (close s))) = [].
Proof. intros [o w]. split; reflexivity. Qed.

(** C9: close always returns true and sets eof; a second close leaves the
    object as the first one left it (and the transport too, but for the
    record of the second end request), and isOpen is false after each. *)
Theorem C9_close_true_eof_idempotent :
  forall s : St,
    let s1 := snd (close s) in
    let s2 := snd (close s1) in
    fst (close s) = true /\ eof (fst s1) = true /\ isOpen s1 = false
    /\ fst (close s1) = true /\ eof (fst s2) = true /\ isOpen s2 = false
    /\ fst s2 = fst s1
    /\ same_transport (snd s2) (snd s1).
Proof.
  intros [o w]. unfold same_transport, close, isOpen.
  destruct (esp32 w) eqn:E.
  - destruct (http_connected w && client_connected w
              && negb (client_available w =? 0)); cbn; rewrite ?E; cbn;
      repeat split; reflexivity.
  - cbn. rewrite E. cbn. repeat split; reflexivity.
Qed.


(** ** The cap on the declared size *)

(** While the position is below a declared size, the guard of readInternal
    compares the request with [pos - size] taken as an unsigned number: a
    request below 2^32 - (size - pos) goes through as it is. *)
Lemma size_guard_lets_through :
  forall p sz len,
    0 <= p < sz -> sz < 2 ^ 31 -> 0 <= len <= 2 ^ 32 - (sz - p) ->
    (if (sz >? 0) && (len >? wrap32 (p - sz)) then wrap32 (p - sz) else len) = len.
Proof.
  intros p sz len Hp Hsz Hlen.
  assert (Hw : wrap32 (p - sz) = 2 ^ 32 - (sz - p)).
  { unfold wrap32. replace (p - sz) with ((2 ^ 32 - (sz - p)) + (-1) * 2 ^ 32) by lia.
    rewrite Z.mod_add by lia. apply Z.mod_small. lia. }
  rewrite Hw. destruct (len >? 2 ^ 32 - (sz - p)) eqn:E.
  - apply Z.gtb_lt in E. lia.
  - rewrite andb_false_r. reflexivity.
Qed.

(** C1: a session that declares 10 bytes while 20 are in the socket: a read
    of 20 returns all 20 and leaves the position at 20, past the declared
    size of 10. *)
Theorem C1_read_passes_declared_size :
  exists s',
    read 1 Buffer 20 oversized_session
      = Some (20, b "0123456789ABCDEFGHIJ", s')
    /\ getSize oversized_session = 10
    /\ getPos oversized_session = 0
    /\ getSize s' = 10
    /\ getPos s' = 20.
Proof.
  eexists. split; [vm_compute; reflexivity|]. vm_compute. repeat split; reflexivity.
Qed.

(** ** open *)

Lemma http_GET_code :
  forall url w, fst (http_GET (http_begin url w)) = r_code (server w (requests w)).
Proof. reflexivity. Qed.

Lemma open_not_ok :
  forall url o w,
    r_code (server w (requests w)) <> HTTP_CODE_OK ->
    open url (o, w)
    = (false,
       (set_pos 0 o,
        cb_st STATUS_HTTPFAIL "Can't open HTTP request"
          (http_end (snd (http_GET (http_begin url w)))))).
Proof.
  intros url o w H. rewrite <- (http_GET_code url) in H. unfold open.
  destruct (http_GET (http_begin url w)) as [code w1]. cbn [fst snd] in *.
  destruct (code =? HTTP_CODE_OK) eqn:E.
  - apply Z.eqb_eq in E. contradiction.
  - reflexivity.
Qed.

(** When the response status is not OK, open ends the HTTP session and
    fails. *)
Lemma open_request_failed_releases :
  forall url o w,
    r_code (server w (requests w)) <> HTTP_CODE_OK ->
    fst (open url (o, w)) = false
    /\ http_connected (snd (snd (open url (o, w)))) = false
    /\ In EvEnd (trace (snd (snd (open url (o, w))))).
Proof.
  intros url o w H. rewrite (open_not_ok url o w H). cbn [fst snd].
  repeat split. cbn [cb_st http_end emit set_trace trace].
  apply in_cons, in_eq.
Qed.

(** C4: the response is OK and chunked and its first size line does not
    parse: open fails, yet no end of the HTTP session was requested and the
    transport is still connected, with the rest of the body in its
    buffer. *)
Theorem C4_open_framing_failure_keeps_transport :
  let r := open "http://h/a" (fresh malformed_world) in
  fst r = false
  /\ ~ In EvEnd (trace (snd (snd r)))
  /\ http_connected (snd (snd r)) = true
  /\ inbuf (snd (snd r)) = b "hello"
  /\ isOpen (snd r) = true.
Proof.
  vm_compute. repeat split; try reflexivity.
  intros H. repeat (destruct H as [H | H]; [discriminate|]). exact H.
Qed.

(** C7: reconnectTries is 1, the peer has hung up, and the one reconnect
    attempt fails in open (the first size line is malformed): one attempt is
    made, no reconnect is reported, and the read still returns 5 bytes taken
    from the body of the failed response. *)
Theorem C7_failed_reconnect_read_returns_bytes :
  exists s1 s2,
    read 1 Buffer 3 flaky_session = Some (3, b "abc", s1)
    /\ reconnectTries (fst s1) = 1
    /\ fst (open (saveURL (fst s1)) (hangup s1)) = false
    /\ read 1 Buffer 5 (hangup s1) = Some (5, b "hello", s2)
    /\ requests (snd s2) = S (requests (snd s1))
    /\ ~ In (EvStatus STATUS_RECONNECTED "Stream reconnected") (trace (snd s2)).
Proof.
  eexists. eexists. split; [vm_compute; reflexivity|].
  split; [reflexivity|]. split; [vm_compute; reflexivity|].
  split; [vm_compute; reflexivity|]. split; [reflexivity|].
  vm_compute. intros H. repeat (destruct H as [H | H]; [discriminate|]). exact H.
Qed.

(** ** The chunked round trip *)

(** Once the request covers the rest of the current chunk, readChunked
    uses its size for the two tests only. *)
Lemma readChunked_len_irrelevant :
  forall fuel len nb s,
    0 < len -> wrap32 (next_chunk (fst s)) <= len ->
    readChunked fuel len nb s = readChunked fuel (2 ^ 32 - 1) nb s.
Proof.
  intros fuel len nb [o w] H0 H1. cbn [fst] in H1. unfold readChunked.
  assert (wrap32 (next_chunk o) < 2 ^ 32) by (unfold wrap32; apply Z.mod_pos_bound; lia).
  replace (len >? 0) with true by (symmetry; apply Z.gtb_lt; lia).
  replace (2 ^ 32 - 1 >? 0) with true by reflexivity.
  replace (len >=? wrap32 (next_chunk o)) with true by (symmetry; apply Z.geb_le; lia).
  replace (2 ^ 32 - 1 >=? wrap32 (next_chunk o)) with true by (symmetry; apply Z.geb_le; lia).
  reflexivity.
Qed.

Lemma read_variant_chunked :
  forall nbflag passes len k,
    read_variant nbflag passes len (wiki_at k)
    = readChunked passes len nbflag (wiki_at k).
Proof. intros [|] passes len k; reflexivity. Qed.

Lemma wiki_session_start : wiki_session = wiki_at 0.
Proof. vm_compute. reflexivity. Qed.

(** A call made while [k < 9] bytes are out hands over the next bytes of
    the payload, at least one and no more than the current chunk still
    has. *)
Lemma wiki_step :
  forall nbflag passes len k,
    (k < 9)%nat -> 0 < len < 2 ^ 32 ->
    exists m,
      (0 < m)%nat /\ (k + m <= 9)%nat
      /\ read_variant nbflag (S passes) len (wiki_at k)
         = Some (Z.of_nat m, firstn m (skipn k (b "Wikipedia")), wiki_at (k + m)).
Proof.
  intros nbflag passes len k Hk [Hl Hu]. rewrite read_variant_chunked.
  set (rem := if (k <? 4)%nat then 4 - Z.of_nat k else 9 - Z.of_nat k).
  destruct (Z_lt_le_dec len rem) as [Hlt | Hge].
  - (* the request ends inside the chunk *)
    exists (Z.to_nat len).
    do 9 (destruct k as [|k];
          [cbv in rem; subst rem;
           assert (Hc : len = 1 \/ len = 2 \/ len = 3 \/ len = 4) by lia;
           destruct Hc as [-> | [-> | [-> | ->]]]; try (exfalso; lia);
           (split; [lia | split; [lia | destruct nbflag; vm_compute; reflexivity]]) |]).
    exfalso; lia.
  - (* the request covers the rest of the chunk *)
    exists (Z.to_nat rem).
    rewrite readChunked_len_irrelevant.
    + do 9 (destruct k as [|k];
            [cbv in rem; subst rem;
             (split; [lia | split; [lia | destruct nbflag; vm_compute; reflexivity]]) |]).
      exfalso; lia.
    + lia.
    + replace (wrap32 (next_chunk (fst (wiki_at k)))) with rem; [exact Hge|].
      subst rem. do 9 (destruct k as [|k]; [reflexivity |]).
      exfalso; lia.
Qed.

(** With all 9 bytes out, the next call finds the closing delimiter and no
    further size line: it returns nothing and closes the session. *)
Lemma wiki_end :
  forall nbflag passes len,
    0 < len < 2 ^ 32 ->
    exists s',
      read_variant nbflag passes len (wiki_at 9) = Some (0, [], s')
      /\ eof (fst s') = true /\ isOpen s' = false.
Proof.
  intros nbflag passes len [Hl Hu]. rewrite read_variant_chunked.
  rewrite readChunked_len_irrelevant;
    [| lia | change (wrap32 (next_chunk (fst (wiki_at 9)))) with 0; lia].
  eexists. split; [destruct nbflag; vm_compute; reflexivity|].
  split; reflexivity.
Qed.

Lemma read_to_end_wiki_from :
  forall calls k lens nb passes i,
    (k <= 9)%nat -> (9 - k < calls)%nat ->
    (forall j, 0 < lens j < 2 ^ 32) ->
    read_to_end calls lens nb (S passes) i (wiki_at k)
    = Some (skipn k (b "Wikipedia")).
Proof.
  induction calls as [|calls IH]; intros k lens nb passes i Hk Hc Hlens; [lia|].
  cbn [read_to_end].
  destruct (Nat.eq_dec k 9) as [-> | Hne].
  - destruct (wiki_end (nb i) (S passes) (lens i) (Hlens i)) as (s' & -> & _).
    reflexivity.
  - destruct (wiki_step (nb i) passes (lens i) k ltac:(lia) (Hlens i))
      as (m & Hm & Hkm & ->).
    replace (Z.of_nat m =? 0) with false by (symmetry; apply Z.eqb_neq; lia).
    rewrite IH by (try assumption; lia).
    unfold returned, option_map. rewrite Nat2Z.id.
    rewrite firstn_all2 by (rewrite length_firstn; lia).
    f_equal. rewrite <- (firstn_skipn m (skipn k (b "Wikipedia"))) at 2.
    rewrite skipn_skipn. rewrite (Nat.add_comm m k). reflexivity.
Qed.

(** C5: the chunked session fed 4 CRLF Wiki CRLF 5 CRLF pedia CRLF 0 CRLF
    CRLF, read to the end with any positive request sizes and either read
    variant at each call: the calls that return bytes hand over exactly
    Wikipedia, 9 bytes, and the call after them returns 0. *)
Theorem C5_chunked_round_trip_wikipedia :
  forall (lens : nat -> Z) (nb : nat -> bool) (passes : nat),
    (forall i, 0 < lens i < 2 ^ 32) ->
    read_to_end 10 lens nb (S passes) 0 wiki_session = Some (b "Wikipedia")
    /\ List.length (b "Wikipedia") = 9%nat.
Proof.
  intros lens nb passes Hlens. split; [|reflexivity].
  rewrite wiki_session_start.
  apply (read_to_end_wiki_from 10 0 lens nb passes 0); [lia | lia | exact Hlens].
Qed.

Lemma C5_round_trip_in_threes :
  (forall i : nat, 0 < (fun _ => 3) i < 2 ^ 32)
  /\ read_to_end 10 (fun _ => 3) (fun _ => false) 1 0 wiki_session
     = Some (b "Wikipedia").
Proof.
  split.
  - intros i. lia.
  - apply (C5_chunked_round_trip_wikipedia (fun _ => 3) (fun _ => false) 0).
    intros i. lia.
Defined.

(** ** What a wait, a socket read and a close leave untouched *)

Ltac wsimpl :=
  cbn [now connected inbuf later hdr_te hdr_size server requests trace esp32
       stream_timeout junk set_socket set_inbuf set_now set_trace emit cb_st
       audioLogger_printf http_end client_stop http_begin fst snd] in *.

Lemma elapse_pending :
  forall l ms,
    fst (elapse ms l) ++ List.concat (map snd (snd (elapse ms l)))
    = List.concat (map snd l).
Proof.
  induction l as [|[d bs] rest IH]; intros ms; cbn [elapse]; [reflexivity|].
  destruct (d <=? ms)%nat.
  - specialize (IH (ms - d)%nat). destruct (elapse (ms - d) rest) as [a r].
    cbn [fst snd map List.concat] in *. rewrite <- app_assoc, IH. reflexivity.
  - reflexivity.
Qed.

Lemma later_than_refl : forall w, later_than w w.
Proof.
  intros w. repeat split; try lia. exists []. rewrite app_nil_r. reflexivity.
Qed.

Lemma later_than_trans :
  forall w1 w2 w3, later_than w1 w2 -> later_than w2 w3 -> later_than w1 w3.
Proof.
  intros w1 w2 w3 (F1 & P1 & [a1 I1] & N1) (F2 & P2 & [a2 I2] & N2).
  repeat split; try congruence; try lia.
  exists (a1 ++ a2). rewrite I2, I1, app_assoc. reflexivity.
Qed.

Lemma advance_later_than : forall ms w, later_than w (advance ms w).
Proof.
  intros ms w. unfold advance. pose proof (elapse_pending (later w) ms) as H.
  destruct (elapse ms (later w)) as [a r]. cbn [fst snd] in H.
  repeat split.
  - unfold pending. wsimpl. rewrite <- app_assoc, H. reflexivity.
  - exists a. reflexivity.
  - wsimpl. lia.
Qed.

Lemma while_yield_later_than :
  forall fuel cond w, later_than w (while_yield fuel cond w).
Proof.
  induction fuel as [|fuel IH]; intros cond w; cbn [while_yield].
  - apply later_than_refl.
  - destruct (cond w); [|apply later_than_refl].
    eapply later_than_trans; [apply advance_later_than | apply IH].
Qed.

Lemma yield_frame : forall w, frame (yield w) = frame w.
Proof. intros w. apply (advance_later_than 1 w). Qed.

Lemma timedRead_loop_frame :
  forall fuel w, frame (snd (timedRead_loop fuel w)) = frame w.
Proof.
  induction fuel as [|fuel IH]; intros w; cbn [timedRead_loop]; [reflexivity|].
  destruct (inbuf w); [|reflexivity].
  rewrite IH. apply yield_frame.
Qed.

Lemma timedRead_frame : forall w, frame (snd (timedRead w)) = frame w.
Proof.
  intros w. unfold timedRead. destruct (stream_timeout w) as [|t].
  - destruct (inbuf w); reflexivity.
  - apply timedRead_loop_frame.
Qed.

Lemma readStringUntil_loop_frame :
  forall fuel term acc w,
    frame (snd (readStringUntil_loop fuel term acc w)) = frame w.
Proof.
  induction fuel as [|fuel IH]; intros term acc w; cbn [readStringUntil_loop];
    [reflexivity|].
  pose proof (timedRead_frame w) as H.
  destruct (timedRead w) as [[c|] w1]; cbn [snd] in *; [|exact H].
  destruct (byte_eqb c term); [exact H|]. rewrite IH. exact H.
Qed.

Lemma client_readStringUntil_frame :
  forall term w, frame (snd (client_readStringUntil term w)) = frame w.
Proof. intros. apply readStringUntil_loop_frame. Qed.

Lemma while_yield_frame :
  forall fuel cond w, frame (while_yield fuel cond w) = frame w.
Proof. intros. apply while_yield_later_than. Qed.

Lemma getChunkSize_frame :
  forall o w,
    fst (snd (getChunkSize (o, w))) = o
    /\ frame (snd (snd (getChunkSize (o, w)))) = frame w.
Proof.
  intros o w. unfold getChunkSize.
  set (w1 := wait_first_byte w).
  assert (H1 : frame w1 = frame w) by apply while_yield_frame.
  destruct (client_available w1 =? 0); [split; [reflexivity | exact H1]|].
  pose proof (client_readStringUntil_frame CR w1) as H2.
  destruct (client_readStringUntil CR w1) as [len w2]. cbn [snd] in H2.
  pose proof (client_readStringUntil_frame LF w2) as H3.
  destruct (client_readStringUntil LF w2) as [lf w3]. cbn [snd] in H3.
  destruct (sscanf_x len 0) as [ret val].
  destruct (negb (ret =? 0)); cbn [fst snd]; (split; [reflexivity | congruence]).
Qed.

Lemma verifyCrlf_frame :
  forall o w,
    fst (snd (verifyCrlf (o, w))) = o
    /\ frame (snd (snd (verifyCrlf (o, w)))) = frame w.
Proof.
  intros o w. unfold verifyCrlf, client_read.
  destruct (firstn 2 (inbuf w)) as [|a [|c l]]; try destruct (junk _);
    split; reflexivity.
Qed.

Lemma frame_requests : forall w w', frame w' = frame w -> requests w' = requests w.
Proof. unfold frame. intros w w' H. congruence. Qed.

Lemma open_requests :
  forall url s, req (snd (open url s)) = S (req s).
Proof.
  intros url [o w]. unfold open, req.
  destruct (http_GET (http_begin url w)) as [code w1] eqn:E.
  assert (R : requests w1 = S (requests w)).
  { unfold http_GET in E. injection E as _ <-. reflexivity. }
  destruct (negb (code =? HTTP_CODE_OK)); [exact R|].
  destruct (http_hasHeader w1); [|exact R].
  destruct (String.eqb _ _); [|exact R].
  set (w2 := audioLogger_printf _ w1).
  destruct (getChunkSize_frame (set_pos 0 o) w2) as [_ F].
  destruct (getChunkSize (set_pos 0 o, w2)) as [n [o3 w3]]. cbn [snd] in F.
  apply frame_requests in F.
  destruct (-1 =? _); cbn [snd]; rewrite F; exact R.
Qed.

(** ** One pass of readInternal *)

Lemma wrap32_range : forall z, 0 <= wrap32 z < 2 ^ 32.
Proof. intros z. unfold wrap32. apply Z.mod_pos_bound. lia. Qed.

Lemma wrap32_small : forall z, 0 <= z < 2 ^ 32 -> wrap32 z = z.
Proof. intros z H. unfold wrap32. apply Z.mod_small. exact H. Qed.

Lemma wrap32_to_int32 : forall z, wrap32 (to_int32 z) = wrap32 z.
Proof.
  intros z. unfold to_int32, wrap32.
  destruct (z mod 2 ^ 32 <? 2 ^ 31).
  - apply Z.mod_mod. lia.
  - replace (z mod 2 ^ 32 - 2 ^ 32) with (z mod 2 ^ 32 + (-1) * 2 ^ 32) by lia.
    rewrite Z.mod_add by lia. apply Z.mod_mod. lia.
Qed.

Lemma clamp_len_le : forall o len, 0 <= len -> 0 <= clamp_len o len <= len.
Proof.
  intros o len H. unfold clamp_len.
  destruct (size o >? 0); cbn [andb]; [|lia].
  destruct (len >? wrap32 (pos o - size o)) eqn:E; [|lia].
  apply Z.gtb_lt in E. pose proof (wrap32_range (pos o - size o)). lia.
Qed.

Lemma wait_for_data_later_than : forall len w, later_than w (wait_for_data len w).
Proof. intros. apply while_yield_later_than. Qed.

Lemma set_inbuf_same : forall w, set_inbuf (inbuf w) w = w.
Proof. intros []. reflexivity. Qed.

(** What one pass does once the transport is connected: it returns bytes
    from the front of the socket, none of them beyond the request, or, in
    the blocking variant with nothing received by the end of the wait, it
    reports, closes and jumps back. *)
Lemma readInternal_connected_spec :
  forall len nb o w,
    0 <= len < 2 ^ 32 ->
    match readInternal_connected len nb (o, w) with
    | Return n stored (o', w') =>
        0 <= n <= len /\ Z.of_nat (List.length stored) = n
        /\ (o' = o \/ o' = set_pos (to_int32 (pos o + to_int32 n)) o)
        /\ exists w1,
             later_than w w1 /\ (nb = true -> w1 = w)
             /\ n <= client_available w1
             /\ stored = firstn (Z.to_nat n) (inbuf w1)
             /\ w' = set_inbuf (skipn (Z.to_nat n) (inbuf w1)) w1
    | GotoRetry len' s' =>
        nb = false /\ 0 <= len' <= len
        /\ exists w1,
             later_than w w1 /\ client_available w1 = 0
             /\ w1 = wait_for_data len' w
             /\ s' = snd (close (o, cb_st STATUS_NODATA "No stream data available" w1))
    end.
Proof.
  intros len nb o w Hlen. unfold readInternal_connected.
  destruct ((size o >? 0) && (pos o >=? size o)).
  { split; [lia|]. split; [reflexivity|]. split; [left; reflexivity|].
    exists w. repeat split; try apply later_than_refl.
    - unfold client_available. lia.
    - cbn [Z.to_nat skipn]. symmetry. apply set_inbuf_same. }
  pose proof (clamp_len_le o len ltac:(lia)) as Hc.
  set (len1 := clamp_len o len) in *.
  set (w1 := if negb nb then wait_for_data len1 w else w).
  assert (L : later_than w w1).
  { subst w1. destruct nb; cbn [negb]; [apply later_than_refl | apply wait_for_data_later_than]. }
  assert (Hnb : nb = true -> w1 = w) by (intros ->; reflexivity).
  destruct (client_available w1 =? 0) eqn:Ea.
  - apply Z.eqb_eq in Ea. destruct nb; cbn [negb andb].
    + split; [lia|]. split; [reflexivity|]. split; [left; reflexivity|].
      exists w1. split; [exact L|]. split; [exact Hnb|]. split; [lia|].
      split; [reflexivity|].
      cbn [Z.to_nat skipn]. rewrite set_inbuf_same. reflexivity.
    + split; [reflexivity|]. split; [lia|]. exists w1.
      split; [exact L|]. split; [exact Ea|]. split; reflexivity.
  - apply Z.eqb_neq in Ea. rewrite andb_false_r.
    set (len2 := if client_available w1 <? len1 then client_available w1 else len1).
    assert (H2 : 0 <= len2 <= len1 /\ len2 <= client_available w1).
    { subst len2. unfold client_available in *.
      destruct (Z.ltb_spec (Z.of_nat (List.length (inbuf w1))) len1); lia. }
    unfold client_read.
    assert (Hl : Z.of_nat (List.length (firstn (Z.to_nat len2) (inbuf w1))) = len2).
    { rewrite length_firstn. unfold client_available in H2. lia. }
    rewrite Hl. rewrite wrap32_to_int32, wrap32_small by lia.
    split; [lia|]. split; [reflexivity|]. split; [right; reflexivity|].
    exists w1. split; [exact L|]. split; [exact Hnb|]. split; [lia|].
    split; reflexivity.
Qed.

Lemma delay_frame_requests : forall ms w, requests (delay ms w) = requests w.
Proof.
  intros ms w. unfold delay.
  apply (frame_requests (emit (EvDelay ms) w)). apply advance_later_than.
Qed.

Lemma reconnect_loop_requests :
  forall n i s,
    (req s <= req (reconnect_loop n i s))%nat
    /\ (n <> 0%nat -> (req s < req (reconnect_loop n i s))%nat).
Proof.
  induction n as [|n IH]; intros i [o w]; cbn [reconnect_loop].
  - split; [lia | congruence].
  - set (w1 := delay _ _).
    pose proof (open_requests (saveURL o) (o, w1)) as Ho.
    destruct (open (saveURL o) (o, w1)) as [ok [o2 w2]].
    assert (R : req (o2, w2) = S (req (o, w))).
    { cbn [snd] in Ho. rewrite Ho. unfold req, w1. cbn [snd].
      rewrite delay_frame_requests. reflexivity. }
    destruct ok.
    + unfold req in *. cbn [snd] in *. wsimpl. lia.
    + destruct (IH (i + 1) (o2, w2)) as [IH1 _]. lia.
Qed.

Lemma reconnect_loop_zero : forall i s, reconnect_loop 0 i s = s.
Proof. reflexivity. Qed.

(** The reconnect block: it gives up exactly when the transport is still
    disconnected after the attempts, and it issues a request whenever an
    attempt is made. *)
Lemma reconnect_spec :
  forall o w,
    let r := reconnect (o, w) in
    (req (o, w) <= req (snd r))%nat
    /\ http_connected (snd (snd r)) = negb (fst r)
    /\ (req (snd r) = req (o, w) ->
        r = (true,
             (o, cb_st STATUS_DISCONNECTED "Unable to reconnect"
                   (http_end (cb_st STATUS_DISCONNECTED "Stream disconnected" w))))).
Proof.
  intros o w. unfold reconnect. cbv zeta.
  set (w0 := http_end _).
  destruct (reconnect_loop_requests (Z.to_nat (reconnectTries o)) 0 (o, w0)) as [Hle Hlt].
  destruct (Nat.eq_dec (Z.to_nat (reconnectTries o)) 0) as [E | E].
  - rewrite E. rewrite reconnect_loop_zero.
    assert (Hd : http_connected w0 = false) by reflexivity.
    rewrite Hd. cbn [negb fst snd].
    split; [subst w0; unfold req; cbn [snd]; wsimpl; lia|].
    split; [reflexivity|]. intros _. reflexivity.
  - specialize (Hlt E).
    destruct (reconnect_loop _ 0 (o, w0)) as [o1 w1].
    assert (R0 : req (o, w0) = req (o, w)) by reflexivity.
    destruct (http_connected w1) eqn:Ec; cbn [negb fst snd].
    + split; [lia|]. split; [assumption|]. intros H. exfalso. lia.
    + split; [unfold req in *; cbn [snd] in *; wsimpl; lia|].
      split; [exact Ec|]. intros H. exfalso. unfold req in *. cbn [snd] in *. wsimpl. lia.
Qed.

Lemma later_than_requests : forall w w', later_than w w' -> requests w' = requests w.
Proof. intros w w' H. apply frame_requests, H. Qed.

Lemma firstn_inbuf_pending :
  forall n w w1,
    later_than w w1 -> n <= client_available w1 ->
    firstn (Z.to_nat n) (inbuf w1) = firstn (Z.to_nat n) (pending w).
Proof.
  intros n w w1 (_ & P & _ & _) H. rewrite <- P. unfold pending.
  rewrite firstn_app.
  replace (Z.to_nat n - List.length (inbuf w1))%nat with 0%nat
    by (unfold client_available in H; lia).
  cbn [firstn]. rewrite app_nil_r. reflexivity.
Qed.

Lemma close_requests : forall s, req (snd (close s)) = req s.
Proof.
  intros [o w]. unfold close, req. cbn [snd].
  destruct (esp32 w); [|reflexivity].
  destruct (http_connected w && client_connected w
            && negb (client_available w =? 0)); reflexivity.
Qed.

(** One whole pass. *)
Lemma readInternal_pass_spec :
  forall len nb s,
    0 <= len < 2 ^ 32 ->
    match readInternal_pass len nb s with
    | Return n stored s' =>
        0 <= n <= len /\ Z.of_nat (List.length stored) = n
        /\ (req s <= req s')%nat
        /\ (req s' = req s -> stored = firstn (Z.to_nat n) (pending (snd s)))
    | GotoRetry len' s' =>
        nb = false /\ 0 <= len' <= len
        /\ (req s <= req s')%nat
        /\ pending (snd s') = [] /\ http_connected (snd s') = false
        /\ eof (fst s') = true
    end.
Proof.
  intros len nb [o w] Hlen. unfold readInternal_pass. cbn [snd].
  assert (Hconn : forall o1 w1,
    (req (o, w) <= req (o1, w1))%nat ->
    (req (o1, w1) = req (o, w) -> o1 = o /\ pending w1 = pending w) ->
    match readInternal_connected len nb (o1, w1) with
    | Return n stored s' =>
        0 <= n <= len /\ Z.of_nat (List.length stored) = n
        /\ (req (o, w) <= req s')%nat
        /\ (req s' = req (o, w) -> stored = firstn (Z.to_nat n) (pending w))
    | GotoRetry len' s' =>
        nb = false /\ 0 <= len' <= len
        /\ (req (o, w) <= req s')%nat
        /\ pending (snd s') = [] /\ http_connected (snd s') = false
        /\ eof (fst s') = true
    end).
  { intros o1 w1 Hle Heq.
    pose proof (readInternal_connected_spec len nb o1 w1 Hlen) as H.
    destruct (readInternal_connected len nb (o1, w1)) as [n stored [o' w'] | len' s'].
    - destruct H as (Hn & Hl & _ & w2 & L & _ & Ha & Hs & Hw).
      assert (R : req (o', w') = req (o1, w1)).
      { unfold req. cbn [snd]. rewrite Hw. wsimpl. apply later_than_requests, L. }
      split; [exact Hn|]. split; [exact Hl|]. split; [lia|].
      intros E. destruct Heq as [_ Hp]; [lia|].
      rewrite Hs, <- Hp. apply firstn_inbuf_pending; assumption.
    - destruct H as (Hnb & Hl & w2 & L & Ha & _ & ->).
      split; [exact Hnb|]. split; [exact Hl|].
      split; [rewrite close_requests; unfold req in *; cbn [snd] in *; wsimpl;
              rewrite (later_than_requests _ _ L); exact Hle|].
      split; [reflexivity|]. split; [apply close_disconnects | apply close_sets_eof]. }
  destruct (http_connected w) eqn:Ec; cbn [negb].
  - apply Hconn; [lia | intros _; split; reflexivity].
  - pose proof (reconnect_spec o w) as H. cbv zeta in H.
    destruct (reconnect (o, w)) as [g [o1 w1]]. cbn [fst snd] in H.
    destruct H as (Hle & Hc & Hq). destruct g.
    + split; [lia|]. split; [reflexivity|]. split; [exact Hle|]. reflexivity.
    + apply Hconn; [exact Hle|]. intros E. specialize (Hq E). discriminate Hq.
Qed.

(** readInternal never returns more than it was asked for, and what it
    returns is the front of the socket's stream unless it has issued a
    request on the way. *)
Lemma readInternal_spec :
  forall fuel len nb s n stored s',
    0 <= len < 2 ^ 32 ->
    readInternal fuel len nb s = Some (n, stored, s') ->
    0 <= n <= len /\ Z.of_nat (List.length stored) = n
    /\ (req s <= req s')%nat
    /\ (req s' = req s -> stored = firstn (Z.to_nat n) (pending (snd s))).
Proof.
  induction fuel as [|fuel IH]; intros len nb s n stored s' Hlen H;
    cbn [readInternal] in H; [discriminate|].
  pose proof (readInternal_pass_spec len nb s Hlen) as P.
  destruct (readInternal_pass len nb s) as [n1 st1 s1 | len1 s1].
  - injection H as -> -> ->. exact P.
  - destruct P as (_ & Hl & Hr & Hp & _ & _).
    destruct (IH len1 nb s1 n stored s' ltac:(lia) H) as (Hn & Hs & Hr2 & Hq).
    split; [lia|]. split; [exact Hs|]. split; [lia|].
    intros E. rewrite Hp in Hq. specialize (Hq ltac:(lia)).
    rewrite firstn_nil in Hq. subst stored. cbn [List.length] in Hs.
    subst n. reflexivity.
Qed.

(** ** Chunked reads *)

Lemma chunk_boundary_spec :
  forall p stored s,
    let '(n, st, s') := chunk_boundary p stored s in
    (n = p \/ n = 0) /\ st = stored /\ req s' = req s.
Proof.
  intros p stored [o w]. unfold chunk_boundary.
  destruct (next_chunk o =? 0); [|repeat split; left; reflexivity].
  destruct (verifyCrlf_frame o w) as [Ho Hf].
  destruct (verifyCrlf (o, w)) as [ok [o1 w1]]. cbn [fst snd] in *.
  apply frame_requests in Hf.
  destruct ok; cbn [negb].
  - destruct (getChunkSize_frame o1 w1) as [Ho2 Hf2].
    destruct (getChunkSize (o1, w1)) as [n [o2 w2]]. cbn [fst snd] in *.
    apply frame_requests in Hf2.
    destruct (next_chunk (set_next_chunk n o2) <? 0).
    + pose proof (close_requests (set_next_chunk n o2, w2)) as Hc.
      destruct (close (set_next_chunk n o2, w2)) as [c s2]. cbn [snd] in Hc.
      split; [left; reflexivity|]. split; [reflexivity|].
      rewrite Hc. unfold req. cbn [snd]. congruence.
    + split; [left; reflexivity|]. split; [reflexivity|].
      unfold req. cbn [snd]. congruence.
  - split; [right; reflexivity|]. split; [reflexivity|].
    unfold req. cbn [snd]. wsimpl. exact Hf.
Qed.

Lemma firstn_firstn_same :
  forall (A : Type) (n : nat) (l : list A), firstn n (firstn n l) = firstn n l.
Proof. intros A n l. rewrite firstn_firstn, Nat.min_id. reflexivity. Qed.

Lemma readChunked_spec :
  forall fuel len nb o w n stored s',
    0 <= next_chunk o < 2 ^ 31 -> 0 <= len < 2 ^ 32 ->
    readChunked fuel len nb (o, w) = Some (n, stored, s') ->
    0 <= n <= Z.min len (next_chunk o)
    /\ (req (o, w) <= req s')%nat
    /\ (req s' = req (o, w) ->
        returned (n, stored, s') = firstn (Z.to_nat n) (pending w)).
Proof.
  intros fuel len nb o w n stored s' Hnc Hlen H. unfold readChunked in H.
  assert (Hw : wrap32 (next_chunk o) = next_chunk o) by (apply wrap32_small; lia).
  rewrite Hw in H. unfold returned.
  destruct (len >? 0) eqn:E0.
  2:{ injection H as <- <- <-. split; [lia|]. split; [lia|]. reflexivity. }
  destruct (len >=? next_chunk o) eqn:E1.
  - apply Z.geb_le in E1.
    destruct (next_chunk o =? 0) eqn:E2; cbn [negb] in H.
    + (* nothing is left of the chunk: no byte is read *)
      pose proof (chunk_boundary_spec 0 [] (o, w)) as B.
      destruct (chunk_boundary 0 [] (o, w)) as [[n1 st1] s1].
      injection H as <- <- <-. destruct B as (Hn & -> & Hr).
      split; [lia|]. split; [lia|]. intros _.
      rewrite firstn_nil. destruct Hn as [-> | ->]; reflexivity.
    + destruct (readInternal fuel (next_chunk o) nb (o, w))
        as [[[n1 st1] [o1 w1]]|] eqn:R; [|discriminate].
      assert (Hnc2 : 0 <= next_chunk o < 2 ^ 32) by lia.
      destruct (readInternal_spec _ _ _ _ _ _ _ Hnc2 R) as (Hn1 & Hl1 & Hr1 & Hq1).
      rewrite Z.add_0_l, wrap32_small in H by lia.
      set (s2 := (set_next_chunk _ o1, w1)) in H.
      pose proof (chunk_boundary_spec n1 st1 s2) as B.
      destruct (chunk_boundary n1 st1 s2) as [[n2 st2] s3].
      injection H as <- <- <-. destruct B as (Hn & -> & Hr).
      assert (R2 : req s2 = req (o1, w1)) by reflexivity.
      split; [destruct Hn; lia|]. split; [lia|]. intros E.
      destruct Hn as [-> | ->]; [|reflexivity].
      rewrite Hq1 by lia. cbn [snd]. apply firstn_firstn_same.
  - rewrite Z.geb_leb in E1. apply Z.leb_gt in E1.
    destruct (readInternal fuel len nb (o, w))
      as [[[n1 st1] [o1 w1]]|] eqn:R; [|discriminate].
    destruct (readInternal_spec _ _ _ _ _ _ _ Hlen R) as (Hn1 & Hl1 & Hr1 & Hq1).
    rewrite Z.add_0_l, wrap32_small in H by lia.
    injection H as <- <- <-.
    split; [lia|]. split; [exact Hr1|]. intros E.
    rewrite Hq1 by exact E. cbn [snd]. apply firstn_firstn_same.
Qed.

(** In chunked mode, with a remaining count that
    is not negative, one read or readNonBlock call returns no more bytes
    than the request and than the current chunk still had at the start of
    the call; and unless the call issues a request (a reconnect), the bytes
    are the next ones of the socket's stream, that is, all from the current
    chunk. *)
Theorem chunked_read_within_chunk :
  forall nb passes len o w n stored s',
    readImpl o = ReadChunked ->
    0 <= next_chunk o < 2 ^ 31 -> 0 <= len < 2 ^ 32 ->
    read_variant nb passes len (o, w) = Some (n, stored, s') ->
    0 <= n <= Z.min len (next_chunk o)
    /\ (req s' = req (o, w) ->
        returned (n, stored, s')
        = firstn (Z.to_nat n) (firstn (Z.to_nat (next_chunk o)) (pending w))).
Proof.
  intros nb passes len o w n stored s' Hm Hnc Hlen H.
  assert (H' : readChunked passes len nb (o, w) = Some (n, stored, s')).
  { destruct nb; cbn [read_variant read readNonBlock] in H;
      unfold call_readImpl in H; cbn [fst] in H; rewrite Hm in H; exact H. }
  destruct (readChunked_spec _ _ _ _ _ _ _ _ Hnc Hlen H') as (Hn & _ & Hq).
  split; [exact Hn|]. intros E. rewrite (Hq E).
  rewrite firstn_firstn. f_equal. lia.
Qed.

Lemma chunked_read_within_chunk_example :
  exists s',
    readImpl (fst wiki_session) = ReadChunked
    /\ 0 <= next_chunk (fst wiki_session) < 2 ^ 31
    /\ read_variant false 1 3 wiki_session = Some (3, b "Wik", s')
    /\ 0 <= 3 <= Z.min 3 (next_chunk (fst wiki_session))
    /\ returned (3, b "Wik", s') = b "Wik".
Proof.
  exists (wiki_at 3).
  assert (R : read_variant false 1 3 (wiki_at 0) = Some (3, b "Wik", wiki_at 3))
    by (vm_compute; reflexivity).
  rewrite wiki_session_start.
  split; [reflexivity|]. split; [cbn; lia|]. split; [exact R|].
  destruct (chunked_read_within_chunk false 1 3 (fst (wiki_at 0)) (snd (wiki_at 0))
              3 (b "Wik") (wiki_at 3) eq_refl ltac:(cbn; lia) ltac:(lia) R) as [Hn Hq].
  split; [exact Hn|]. rewrite (Hq eq_refl). reflexivity.
Defined.

(** C10: the session has 6 bytes of its chunk left when the peer hangs up;
    the read of 6 reconnects and, with the length it computed before the
    resource was re-opened, returns the 4 payload bytes of the first chunk
    of the new stream together with the delimiter that follows them; the
    remaining count ends below zero. *)
Lemma C10_reconnect_crosses_chunk_boundary :
  exists s1 s2,
    read 1 Buffer 4 resumed_session = Some (4, b "0123", s1)
    /\ readImpl (fst s1) = ReadChunked
    /\ next_chunk (fst s1) = 6
    /\ read 1 Buffer 6 (hangup s1) = Some (6, b "Wiki" ++ [CR; LF], s2)
    /\ next_chunk (fst s2) = -2.
Proof.
  eexists. eexists. split; [vm_compute; reflexivity|].
  split; [reflexivity|]. split; [reflexivity|].
  split; [vm_compute; reflexivity|]. reflexivity.
Qed.

(** ** The non-blocking variant *)






(** ** The bounds of the loops are not reached before the loops end *)

Lemma now_yield : forall w, now (yield w) = now w + 1.
Proof.
  intros w. unfold yield, advance. destruct (elapse 1 (later w)). reflexivity.
Qed.

Lemma wrap32_eq : forall a c q, a = c + q * 2 ^ 32 -> wrap32 a = wrap32 c.
Proof. intros a c q ->. unfold wrap32. apply Z.mod_add. lia. Qed.

Lemma to_int32_rep : forall z, exists q, to_int32 z = z + q * 2 ^ 32.
Proof.
  intros z. unfold to_int32.
  pose proof (Z.div_mod z (2 ^ 32) ltac:(lia)) as H.
  destruct (z mod 2 ^ 32 <? 2 ^ 31).
  - exists (- (z / 2 ^ 32)). lia.
  - exists (- (z / 2 ^ 32) - 1). lia.
Qed.

Lemma wrap32_rep : forall z, exists q, wrap32 z = z + q * 2 ^ 32.
Proof.
  intros z. unfold wrap32. exists (- (z / 2 ^ 32)).
  pose proof (Z.div_mod z (2 ^ 32) ltac:(lia)). lia.
Qed.

(** The clock arithmetic of readInternal: [millis() - start] with an [int]
    start. *)
Lemma elapsed_500 :
  forall n0 k, 0 <= k < 2 ^ 32 ->
    wrap32 (wrap32 (n0 + k) - to_int32 (wrap32 n0)) = k.
Proof.
  intros n0 k Hk.
  destruct (wrap32_rep (n0 + k)) as [q1 E1].
  destruct (wrap32_rep n0) as [q2 E2].
  destruct (to_int32_rep (wrap32 n0)) as [q3 E3].
  rewrite (wrap32_eq _ k (q1 - q2 - q3)) by lia. apply wrap32_small. exact Hk.
Qed.

(** The clock arithmetic of getChunkSize: [(signed long)(millis() - start)]. *)
Lemma elapsed_1500 :
  forall n0 k, 0 <= k < 2 ^ 31 ->
    to_int32 (wrap32 (wrap32 (n0 + k) - wrap32 n0)) = k.
Proof.
  intros n0 k Hk.
  destruct (wrap32_rep (n0 + k)) as [q1 E1].
  destruct (wrap32_rep n0) as [q2 E2].
  assert (E : wrap32 (wrap32 (n0 + k) - wrap32 n0) = k).
  { rewrite (wrap32_eq _ k (q1 - q2)) by lia. apply wrap32_small. lia. }
  rewrite E. unfold to_int32. rewrite Z.mod_small by lia.
  destruct (Z.ltb_spec k (2 ^ 31)); lia.
Qed.

Lemma while_yield_exits :
  forall (T : nat) (A : World -> bool) (el : World -> Z) (w0 : World),
    (forall k w, now w = now w0 + Z.of_nat k -> (k <= T)%nat -> el w = Z.of_nat k) ->
    let cond := fun w => A w && (el w <? Z.of_nat T) in
    cond (while_yield T cond w0) = false.
Proof.
  intros T A el w0 Hel cond.
  assert (G : forall fuel k w,
             now w = now w0 + Z.of_nat k -> (k + fuel = T)%nat ->
             cond (while_yield fuel cond w) = false).
  { induction fuel as [|fuel IH]; intros k w Hn Hk; cbn [while_yield].
    - unfold cond. rewrite (Hel k w Hn) by lia.
      replace k with T by lia. rewrite Z.ltb_irrefl. apply andb_false_r.
    - destruct (cond w) eqn:E; [|exact E].
      apply (IH (S k)); [rewrite now_yield, Hn; lia | lia]. }
  apply (G T 0%nat w0); [lia | reflexivity].
Qed.

(** The wait of readInternal ends because its own condition fails: enough
    bytes have come or 500 ms have passed. *)
Lemma wait_for_data_exits :
  forall len w,
    let w1 := wait_for_data len w in
    (client_available w1 <? to_int32 len)
    && (wrap32 (millis w1 - to_int32 (millis w)) <? 500) = false.
Proof.
  intros len w. unfold wait_for_data.
  apply (while_yield_exits 500 (fun w => client_available w <? to_int32 len)
           (fun w' => wrap32 (millis w' - to_int32 (millis w))) w).
  intros k w' Hn Hk. unfold millis. rewrite Hn. apply elapsed_500. lia.
Qed.

(** The wait of getChunkSize ends because its own condition fails: a byte
    has come or 1500 ms have passed. *)
Lemma wait_first_byte_exits :
  forall w,
    let w1 := wait_first_byte w in
    (client_available w1 =? 0)
    && (to_int32 (wrap32 (millis w1 - millis w)) <? 1500) = false.
Proof.
  intros w. unfold wait_first_byte.
  apply (while_yield_exits 1500 (fun w => client_available w =? 0)
           (fun w' => to_int32 (wrap32 (millis w' - millis w))) w).
  intros k w' Hn Hk. unfold millis. rewrite Hn. apply elapsed_1500. lia.
Qed.

Lemma timedRead_loop_pending :
  forall fuel w,
    match timedRead_loop fuel w with
    | (Some c, w1) => pending w = c :: pending w1
    | (None, w1) => pending w1 = pending w
    end.
Proof.
  induction fuel as [|fuel IH]; intros w; cbn [timedRead_loop]; [reflexivity|].
  destruct (inbuf w) as [|c rest] eqn:E.
  - specialize (IH (yield w)).
    assert (P : pending (yield w) = pending w) by apply (advance_later_than 1 w).
    destruct (timedRead_loop fuel (yield w)) as [[c|] w1]; congruence.
  - unfold pending. rewrite E. reflexivity.
Qed.

Lemma timedRead_pending :
  forall w,
    match timedRead w with
    | (Some c, w1) => pending w = c :: pending w1
    | (None, w1) => pending w1 = pending w
    end.
Proof.
  intros w. unfold timedRead. destruct (stream_timeout w).
  - destruct (inbuf w) as [|c rest] eqn:E; [reflexivity|].
    unfold pending. rewrite E. reflexivity.
  - apply timedRead_loop_pending.
Qed.

(** readStringUntil takes a byte off the socket in every round, so a bound
    above the number of bytes to come is never reached: any two such bounds
    give the same result. *)
Lemma readStringUntil_loop_bound_irrelevant :
  forall f1 f2 term acc w,
    (List.length (pending w) < f1)%nat -> (List.length (pending w) < f2)%nat ->
    readStringUntil_loop f1 term acc w = readStringUntil_loop f2 term acc w.
Proof.
  induction f1 as [|f1 IH]; intros f2 term acc w H1 H2; [lia|].
  destruct f2 as [|f2]; [lia|]. cbn [readStringUntil_loop].
  pose proof (timedRead_pending w) as P.
  destruct (timedRead w) as [[c|] w1]; [|reflexivity].
  destruct (byte_eqb c term); [reflexivity|].
  rewrite P in H1, H2. cbn [List.length] in H1, H2. apply IH; lia.
Qed.


Lemma while_yield_now :
  forall fuel cond w,
    exists k, (k <= fuel)%nat /\ now (while_yield fuel cond w) = now w + Z.of_nat k.
Proof.
  induction fuel as [|fuel IH]; intros cond w; cbn [while_yield].
  - exists 0%nat. split; lia.
  - destruct (cond w).
    + destruct (IH cond (yield w)) as (k & Hk & E). exists (S k).
      split; [lia|]. rewrite E, now_yield. lia.
    + exists 0%nat. split; lia.
Qed.

(** A wait for at least one byte that ends with an empty socket has lasted
    the whole 500 ms. *)
Lemma wait_for_data_empty_500 :
  forall len w,
    0 < to_int32 len ->
    client_available (wait_for_data len w) = 0 ->
    now (wait_for_data len w) = now w + 500.
Proof.
  intros len w Hl Ha. pose proof (wait_for_data_exits len w) as X. cbv zeta in X.
  rewrite Ha in X. replace (0 <? to_int32 len) with true in X
    by (symmetry; apply Z.ltb_lt; exact Hl).
  cbn [andb] in X. apply Z.ltb_ge in X.
  unfold wait_for_data in *.
  destruct (while_yield_now 500
              (fun w0 => (client_available w0 <? to_int32 len)
                         && (wrap32 (millis w0 - to_int32 (millis w)) <? 500)) w)
    as (k & Hk & E).
  unfold millis in X at 1. rewrite E in X. unfold millis in X.
  rewrite elapsed_500 in X by lia. rewrite E. lia.
Qed.

(** ** The retry of the blocking variant *)

Lemma readInternal_pass_disconnected :
  forall len nb s,
    http_connected (snd s) = false ->
    http_connected (snd (snd (reconnect s))) = false ->
    readInternal_pass len nb s = Return 0 [] (snd (reconnect s)).
Proof.
  intros len nb [o w] Hc Hr. unfold readInternal_pass. rewrite Hc. cbn [negb].
  pose proof (reconnect_spec o w) as H. cbv zeta in H.
  destruct (reconnect (o, w)) as [g s1]. cbn [fst snd] in *.
  destruct H as (_ & Hg & _). rewrite Hr in Hg. destruct g; [reflexivity | discriminate].
Qed.

Lemma isOpen_disconnected :
  forall s, http_connected (snd s) = false -> isOpen s = false.
Proof. intros [o w] H. cbn [snd] in H. unfold isOpen. rewrite H. reflexivity. Qed.

(** C2, as the code has it: a blocking pass on a connected transport that
    ends its wait (500 ms when at least one byte was asked for) with no byte
    in the socket reports the no-data status, closes the session (eof is
    set and the HTTP session ended) and starts readInternal over, as often
    as this happens again; when the pass after it leaves the reconnect block
    disconnected, the call returns 0 there, after that one retry. *)
Theorem C2_blocking_no_data_closes_and_retries :
  forall passes len o w,
    0 <= len < 2 ^ 32 ->
    http_connected w = true ->
    (size o >? 0) && (pos o >=? size o) = false ->
    client_available (wait_for_data (clamp_len o len) w) = 0 ->
    let len1 := clamp_len o len in
    let w1 := wait_for_data len1 w in
    let s1 := snd (close (o, cb_st STATUS_NODATA "No stream data available" w1)) in
    readInternal_pass len false (o, w) = GotoRetry len1 s1
    /\ readInternal (S passes) len false (o, w) = readInternal passes len1 false s1
    /\ trace (snd s1)
       = EvEnd :: EvStatus STATUS_NODATA "No stream data available" :: trace w
    /\ eof (fst s1) = true /\ isOpen s1 = false
    /\ (0 < to_int32 len1 -> now w1 = now w + 500)
    /\ (http_connected (snd (snd (reconnect s1))) = false ->
        readInternal (S (S passes)) len false (o, w)
        = Some (0, [], snd (reconnect s1))).
Proof.
  intros passes len o w Hlen Hc Hsz Ha len1 w1 s1.
  assert (P : readInternal_pass len false (o, w) = GotoRetry len1 s1).
  { unfold readInternal_pass. cbn [snd]. rewrite Hc. cbn [negb].
    unfold readInternal_connected. rewrite Hsz. cbn [negb].
    fold len1. fold w1. replace (client_available w1) with 0 by (symmetry; exact Ha).
    cbn [Z.eqb andb]. subst s1.
    destruct (close (o, cb_st STATUS_NODATA "No stream data available" w1)).
    reflexivity. }
  assert (R : forall f, readInternal (S f) len false (o, w) = readInternal f len1 false s1).
  { intros f. cbn [readInternal]. rewrite P. reflexivity. }
  split; [exact P|]. split; [apply R|].
  assert (T : trace (snd s1)
              = EvEnd :: EvStatus STATUS_NODATA "No stream data available" :: trace w).
  { assert (Tw : trace w1 = trace w).
    { pose proof (wait_for_data_later_than len1 w) as (F & _). fold w1 in F.
      unfold frame in F. congruence. }
    subst s1. unfold close. cbn [snd].
    destruct (esp32 _).
    - replace (client_available (cb_st STATUS_NODATA "No stream data available" w1))
        with 0 by (symmetry; exact Ha).
      cbn [Z.eqb negb]. rewrite andb_false_r. wsimpl. rewrite Tw. reflexivity.
    - wsimpl. rewrite Tw. reflexivity. }
  split; [exact T|]. split; [apply close_sets_eof|].
  split; [apply isOpen_disconnected, close_disconnects|].
  split; [intros Hl; apply wait_for_data_empty_500; assumption|].
  intros Hr. rewrite R. cbn [readInternal].
  rewrite readInternal_pass_disconnected; [reflexivity | apply close_disconnects | exact Hr].
Qed.

Lemma C2_retry_example :
  let o := fst idle_session in
  let w := snd idle_session in
  let s1 := snd (close (o, cb_st STATUS_NODATA "No stream data available"
                             (wait_for_data (clamp_len o 4) w))) in
  http_connected w = true
  /\ client_available (wait_for_data (clamp_len o 4) w) = 0
  /\ http_connected (snd (snd (reconnect s1))) = false
  /\ readInternal 2 4 false (o, w) = Some (0, [], snd (reconnect s1))
  /\ nodata_reports (snd (snd (reconnect s1))) = 1%nat.
Proof.
  intros o w s1.
  assert (H1 : http_connected w = true) by (vm_compute; reflexivity).
  assert (H2 : (size o >? 0) && (pos o >=? size o) = false) by (vm_compute; reflexivity).
  assert (H3 : client_available (wait_for_data (clamp_len o 4) w) = 0)
    by (vm_compute; reflexivity).
  assert (H4 : http_connected (snd (snd (reconnect s1))) = false)
    by (vm_compute; reflexivity).
  split; [exact H1|]. split; [exact H3|]. split; [exact H4|].
  split.
  - apply (C2_blocking_no_data_closes_and_retries 0 4 o w ltac:(lia) H1 H2 H3). exact H4.
  - vm_compute. reflexivity.
Defined.

(** C2 as stated fails: the resource accepts every connection and sends
    nothing; reconnectTries is 1.  Two passes (the first one and one retry)
    do not bring the read to a return, nor do three; the fourth returns 0
    after three no-data reports and three reconnects. *)
Lemma C2_one_read_retries_three_times :
  read 2 Buffer 4 mute_session = None
  /\ read 3 Buffer 4 mute_session = None
  /\ exists s',
       read 4 Buffer 4 mute_session = Some (0, [], s')
       /\ nodata_reports (snd s') = 3%nat
       /\ requests (snd s') = 4%nat
       /\ now (snd s') = 1800.
Proof.
  split; [vm_compute; reflexivity|]. split; [vm_compute; reflexivity|].
  eexists. split; [vm_compute; reflexivity|]. repeat split.
Qed.

(** ** Reads after eof *)

Lemma readInternal_disconnected :
  forall passes len nb s,
    http_connected (snd s) = false ->
    http_connected (snd (snd (reconnect s))) = false ->
    readInternal (S passes) len nb s = Some (0, [], snd (reconnect s)).
Proof.
  intros passes len nb s Hc Hr. cbn [readInternal].
  rewrite readInternal_pass_disconnected by assumption. reflexivity.
Qed.

Lemma open_eof : forall url o w, eof (fst (snd (open url (o, w)))) = eof o.
Proof.
  intros url o w. unfold open.
  destruct (http_GET (http_begin url w)) as [code w1].
  destruct (negb (code =? HTTP_CODE_OK)); [reflexivity|].
  destruct (http_hasHeader w1); [|reflexivity].
  destruct (String.eqb _ _); [|reflexivity].
  set (w2 := audioLogger_printf _ w1).
  destruct (getChunkSize_frame (set_pos 0 o) w2) as [Ho _].
  destruct (getChunkSize (set_pos 0 o, w2)) as [n [o3 w3]]. cbn [fst snd] in Ho.
  subst o3. destruct (-1 =? _); reflexivity.
Qed.










(** ** A read that never returns *)

Lemma frame_server : forall w w', frame w' = frame w -> server w' = server w.
Proof. unfold frame. intros w w' H. congruence. Qed.

Lemma open_mute :
  forall url o w,
    server w = (fun _ => mute_response) ->
    exists o' w',
      open url (o, w) = (true, (o', w'))
      /\ http_connected w' = true
      /\ server w' = (fun _ => mute_response)
      /\ reconnectTries o' = reconnectTries o
      /\ size o' = -1
      /\ readImpl o' = ReadRegular
      /\ pending w' = [].
Proof.
  intros url o w Hs. unfold open.
  destruct (http_GET (http_begin url w)) as [code w1] eqn:E.
  unfold http_GET in E. wsimpl. rewrite Hs in E. injection E as <- <-.
  change (negb (r_code mute_response =? HTTP_CODE_OK)) with false. cbv iota.
  replace (http_hasHeader _) with false by reflexivity.
  eexists. eexists. split; [reflexivity|]. split; [reflexivity|].
  wsimpl. repeat split; try exact Hs.
Qed.

Lemma mute_connected_pass :
  forall o w,
    mute_inv (o, w) -> http_connected w = true ->
    exists s', readInternal_connected 4 false (o, w) = GotoRetry 4 s' /\ mute_inv s'.
Proof.
  intros o w (Hs & Ht & Hz & Hm & Hp) Hc. cbn [fst snd] in *.
  unfold readInternal_connected. rewrite Hz.
  change ((-1 >? 0) && (pos o >=? -1)) with false. cbv iota.
  assert (Hcl : clamp_len o 4 = 4) by (unfold clamp_len; rewrite Hz; reflexivity).
  rewrite Hcl. cbn [negb].
  pose proof (wait_for_data_later_than 4 w) as (F & P & _ & _).
  set (w1 := wait_for_data 4 w) in *.
  assert (Ha : client_available w1 = 0).
  { unfold client_available. rewrite Hp in P. unfold pending in P.
    apply app_eq_nil in P. destruct P as [-> _]. reflexivity. }
  rewrite Ha. cbn [Z.eqb andb].
  destruct (close (o, cb_st STATUS_NODATA "No stream data available" w1))
    as [c [o2 w2]] eqn:Ec.
  eexists. split; [reflexivity|].
  assert (E2 : (o2, w2) = snd (close (o, cb_st STATUS_NODATA "No stream data available" w1)))
    by (rewrite Ec; reflexivity).
  unfold mute_inv. rewrite E2. unfold close. cbn [fst snd].
  repeat split; try assumption.
  apply frame_server in F.
  destruct (esp32 _); [destruct (_ && _)|]; wsimpl; congruence.
Qed.

Lemma mute_pass :
  forall s, mute_inv s -> exists s', readInternal_pass 4 false s = GotoRetry 4 s' /\ mute_inv s'.
Proof.
  intros [o w] Hi. unfold readInternal_pass. cbn [snd].
  destruct (http_connected w) eqn:Hc; cbn [negb].
  - apply mute_connected_pass; assumption.
  - destruct Hi as (Hs & Ht & Hz & Hm & Hp). cbn [fst snd] in *.
    unfold reconnect. rewrite Ht. change (Z.to_nat 1) with 1%nat.
    cbn [reconnect_loop].
    set (w0 := delay _ _).
    assert (Hs0 : server w0 = (fun _ => mute_response)).
    { rewrite <- Hs. subst w0. unfold delay.
      apply (frame_server
               (emit (EvDelay (reconnectDelayMs o))
                  (cb_st STATUS_RECONNECTING (reconnect_msg 0)
                     (http_end (cb_st STATUS_DISCONNECTED "Stream disconnected" w))))).
      apply advance_later_than. }
    pose proof (open_mute (saveURL o) o w0 Hs0)
      as (o1 & w1 & Eo & Hc1 & Hs1 & Ht1 & Hz1 & Hm1 & Hp1).
    rewrite Eo. cbv iota.
    replace (http_connected (cb_st STATUS_RECONNECTED "Stream reconnected" w1))
      with true by (symmetry; exact Hc1).
    cbn [negb]. apply mute_connected_pass; [|exact Hc1].
    unfold mute_inv. cbn [fst snd]. repeat split; try assumption. congruence.
Qed.

(** On that resource, with reconnectTries 1, a blocking low-level read goes
    through pass after pass and reaches no [return], whatever the bound on
    the passes. *)
Lemma readInternal_mute_never_returns :
  forall fuel s, mute_inv s -> readInternal fuel 4 false s = None.
Proof.
  induction fuel as [|fuel IH]; intros s Hi; cbn [readInternal]; [reflexivity|].
  destruct (mute_pass s Hi) as (s' & -> & Hi'). apply IH. exact Hi'.
Qed.

Lemma mute_forever_session_inv : mute_inv mute_forever_session.
Proof. unfold mute_inv. repeat split. Qed.

Lemma read_mute_never_returns :
  forall fuel, read fuel Buffer 4 mute_forever_session = None.
Proof.
  intros fuel. unfold read, call_readImpl.
  replace (readImpl (fst mute_forever_session)) with ReadRegular by reflexivity.
  apply readInternal_mute_never_returns, mute_forever_session_inv.
Qed.

(** ** The reconnect policy when every request is refused *)

Lemma delay_frame : forall ms w, frame (delay ms w) = frame (emit (EvDelay ms) w).
Proof. intros ms w. unfold delay. apply advance_later_than. Qed.

(** When the resource answers none of the coming requests with OK, the loop
    makes all its [n] attempts, each after a sleep, and leaves the transport
    disconnected. *)
Lemma reconnect_loop_all_refused :
  forall n i o w,
    (forall k, r_code (server w (requests w + k)) <> HTTP_CODE_OK) ->
    http_connected w = false ->
    let s' := reconnect_loop n i (o, w) in
    req s' = (req (o, w) + n)%nat
    /\ http_connected (snd s') = false
    /\ server (snd s') = server w.
Proof.
  induction n as [|n IH]; intros i o w Hall Hc; cbn [reconnect_loop].
  - cbv zeta. unfold req. cbn [snd]. repeat split; [lia | exact Hc].
  - set (w1 := delay _ _).
    assert (F : frame w1 = frame (emit (EvDelay (reconnectDelayMs o))
                                    (cb_st STATUS_RECONNECTING (reconnect_msg i) w)))
      by apply delay_frame.
    assert (Hs : server w1 = server w) by (apply frame_server in F; exact F).
    assert (Hr : requests w1 = requests w) by (apply frame_requests in F; exact F).
    assert (Hno : r_code (server w1 (requests w1)) <> HTTP_CODE_OK).
    { rewrite Hs, Hr. specialize (Hall 0%nat). rewrite Nat.add_0_r in Hall. exact Hall. }
    rewrite (open_not_ok (saveURL o) o w1 Hno). cbv iota.
    set (w2 := cb_st _ _ _).
    assert (Hs2 : server w2 = server w) by (subst w2; cbn; exact Hs).
    assert (Hr2 : requests w2 = S (requests w)) by (subst w2; cbn; rewrite Hr; reflexivity).
    destruct (IH (i + 1) (set_pos 0 o) w2) as (R & C & S2).
    + intros k. rewrite Hs2, Hr2. specialize (Hall (S k)).
      replace (S (requests w) + k)%nat with (requests w + S k)%nat by lia. exact Hall.
    + reflexivity.
    + cbv zeta in *. unfold req in *. cbn [snd] in *.
      split; [rewrite R, Hr2; lia|]. split; [exact C | congruence].
Qed.

(** So a read that finds the transport disconnected and has every attempt
    refused makes exactly [reconnectTries] requests and returns 0. *)
Lemma readInternal_all_refused :
  forall passes len nb o w,
    (forall k, r_code (server w (requests w + k)) <> HTTP_CODE_OK) ->
    http_connected w = false ->
    exists s',
      readInternal (S passes) len nb (o, w) = Some (0, [], s')
      /\ req s' = (req (o, w) + Z.to_nat (reconnectTries o))%nat
      /\ http_connected (snd s') = false.
Proof.
  intros passes len nb o w Hall Hc.
  assert (R : reconnect (o, w)
              = (true, (fst (reconnect_loop (Z.to_nat (reconnectTries o)) 0
                               (o, http_end (cb_st STATUS_DISCONNECTED "Stream disconnected" w))),
                        cb_st STATUS_DISCONNECTED "Unable to reconnect"
                          (snd (reconnect_loop (Z.to_nat (reconnectTries o)) 0
                                  (o, http_end (cb_st STATUS_DISCONNECTED "Stream disconnected" w))))))
            /\ req (reconnect_loop (Z.to_nat (reconnectTries o)) 0
                      (o, http_end (cb_st STATUS_DISCONNECTED "Stream disconnected" w)))
               = (req (o, w) + Z.to_nat (reconnectTries o))%nat).
  { destruct (reconnect_loop_all_refused (Z.to_nat (reconnectTries o)) 0 o
                (http_end (cb_st STATUS_DISCONNECTED "Stream disconnected" w)) Hall eq_refl)
      as (Rq & C & _).
    cbv zeta in Rq, C. unfold reconnect.
    destruct (reconnect_loop _ 0 _) as [o1 w1]. cbn [fst snd] in *.
    rewrite C. cbn [negb]. split; [reflexivity | exact Rq]. }
  destruct R as [R Rq].
  assert (C : http_connected (snd (snd (reconnect (o, w)))) = false).
  { pose proof (reconnect_spec o w) as (_ & H & _). cbv zeta in H.
    rewrite H, R. reflexivity. }
  eexists. split.
  - apply readInternal_disconnected; [exact Hc | exact C].
  - split; [|exact C]. rewrite R. exact Rq.
Qed.

(** ** Lines and delimiters taken from a socket that holds them *)

Lemma byte_eqb_refl : forall c, byte_eqb c c = true.
Proof. intros c. apply Byte.byte_dec_lb. reflexivity. Qed.

Lemma byte_eqb_neq : forall c d, c <> d -> byte_eqb c d = false.
Proof.
  intros c d H. destruct (byte_eqb c d) eqn:E; [|reflexivity].
  apply Byte.byte_dec_bl in E. contradiction.
Qed.

Lemma timedRead_buffered :
  forall w c rest, inbuf w = c :: rest -> timedRead w = (Some c, set_inbuf rest w).
Proof.
  intros w c rest H. unfold timedRead. destruct (stream_timeout w) as [|t].
  - rewrite H. reflexivity.
  - cbn [timedRead_loop]. rewrite H. reflexivity.
Qed.

Lemma readStringUntil_loop_line :
  forall l fuel term acc w rest,
    inbuf w = l ++ term :: rest -> ~ In term l -> (List.length l < fuel)%nat ->
    readStringUntil_loop fuel term acc w = (rev acc ++ l, set_inbuf rest w).
Proof.
  induction l as [|c l IH]; intros fuel term acc w rest Hb Hn Hf;
    (destruct fuel as [|fuel]; [cbn [List.length] in Hf; lia|]);
    cbn [readStringUntil_loop]; cbn [app] in Hb;
    rewrite (timedRead_buffered w _ _ Hb).
  - rewrite byte_eqb_refl, app_nil_r. reflexivity.
  - rewrite byte_eqb_neq by (intros ->; apply Hn; left; reflexivity).
    rewrite (IH fuel term (c :: acc) (set_inbuf (l ++ term :: rest) w) rest).
    + cbn [rev]. rewrite <- app_assoc. reflexivity.
    + reflexivity.
    + intros H. apply Hn. right. exact H.
    + cbn [List.length] in Hf. lia.
Qed.

(** readStringUntil on a socket that holds the line and its terminator:
    the line is returned, the terminator consumed, nothing else touched. *)
Lemma client_readStringUntil_line :
  forall l term w rest,
    inbuf w = l ++ term :: rest -> ~ In term l ->
    client_readStringUntil term w = (l, set_inbuf rest w).
Proof.
  intros l term w rest Hb Hn. unfold client_readStringUntil.
  rewrite (readStringUntil_loop_line l _ term [] w rest Hb Hn); [reflexivity|].
  unfold pending. rewrite Hb, !length_app. lia.
Qed.

Lemma wait_first_byte_buffered :
  forall w, inbuf w <> [] -> wait_first_byte w = w.
Proof.
  intros w H. unfold wait_first_byte. cbn [while_yield].
  replace (client_available w =? 0) with false; [reflexivity|].
  symmetry. apply Z.eqb_neq. unfold client_available.
  destruct (inbuf w); [contradiction | cbn [List.length]; lia].
Qed.

Lemma set_inbuf_set_inbuf :
  forall a c w, set_inbuf a (set_inbuf c w) = set_inbuf a w.
Proof. reflexivity. Qed.

Lemma inbuf_set_inbuf : forall a w, inbuf (set_inbuf a w) = a.
Proof. reflexivity. Qed.

(** getChunkSize on a socket that holds a whole size line: the line is
    consumed through its CR LF, no time passes, and the result is what
    sscanf makes of the line: the value when it reports anything but 0
    items, -1 otherwise. *)
Lemma getChunkSize_line :
  forall l rest o w,
    inbuf w = l ++ CR :: LF :: rest -> ~ In CR l ->
    getChunkSize (o, w)
    = ((let '(ret, val) := sscanf_x l 0 in
        if negb (ret =? 0) then to_int32 val else -1),
       (o, set_inbuf rest w)).
Proof.
  intros l rest o w Hb Hn. unfold getChunkSize.
  rewrite wait_first_byte_buffered by (rewrite Hb; destruct l; discriminate).
  replace (client_available w =? 0) with false.
  2:{ symmetry. apply Z.eqb_neq. unfold client_available. rewrite Hb, length_app.
      cbn [List.length]. lia. }
  rewrite (client_readStringUntil_line l CR w (LF :: rest) Hb Hn).
  rewrite (client_readStringUntil_line [] LF (set_inbuf (LF :: rest) w) rest eq_refl)
    by (intros []).
  rewrite set_inbuf_set_inbuf.
  destruct (sscanf_x l 0) as [ret val]. destruct (negb (ret =? 0)); reflexivity.
Qed.

(** verifyCrlf on a socket that holds two bytes or more: exactly two are
    consumed, and the answer is true exactly when they are CR LF. *)
Lemma verifyCrlf_buffered :
  forall a c rest o w,
    inbuf w = a :: c :: rest ->
    verifyCrlf (o, w) = (byte_eqb a CR && byte_eqb c LF, (o, set_inbuf rest w)).
Proof.
  intros a c rest o w Hb. unfold verifyCrlf, client_read. rewrite Hb. reflexivity.
Qed.

Lemma wait_for_data_ready :
  forall len w, to_int32 len <= client_available w -> wait_for_data len w = w.
Proof.
  intros len w H. unfold wait_for_data. cbn [while_yield].
  replace (client_available w <? to_int32 len) with false; [reflexivity|].
  symmetry. apply Z.ltb_ge. exact H.
Qed.

Lemma http_connected_buffered : forall w, inbuf w <> [] -> http_connected w = true.
Proof.
  intros w H. unfold http_connected, client_connected, client_available.
  destruct (inbuf w); [contradiction|]. cbn [List.length].
  replace (0 <? Z.of_nat (S (List.length l))) with true by (symmetry; apply Z.ltb_lt; lia).
  apply orb_true_r.
Qed.

(** readInternal on a socket that already holds what is asked for (or, for
    the non-blocking variant, anything at all): both variants return at
    once the first min(len, available) bytes, len being the request after
    the size guard, and add their number to the position. *)
Lemma readInternal_ready :
  forall passes len nb o w,
    0 <= len < 2 ^ 32 ->
    inbuf w <> [] ->
    (size o >? 0) && (pos o >=? size o) = false ->
    (nb = false -> to_int32 (clamp_len o len) <= client_available w) ->
    let n := Z.min (clamp_len o len) (client_available w) in
    readInternal (S passes) len nb (o, w)
    = Some (n, firstn (Z.to_nat n) (inbuf w),
            (set_pos (to_int32 (pos o + to_int32 n)) o,
             set_inbuf (skipn (Z.to_nat n) (inbuf w)) w)).
Proof.
  intros passes len nb o w Hlen Hb Hsz Hr n.
  cbn [readInternal]. unfold readInternal_pass. cbn [snd].
  rewrite (http_connected_buffered w Hb). cbn [negb].
  unfold readInternal_connected. rewrite Hsz.
  pose proof (clamp_len_le o len ltac:(lia)) as Hc.
  set (len1 := clamp_len o len) in *.
  assert (Hw : (if negb nb then wait_for_data len1 w else w) = w).
  { destruct nb; cbn [negb]; [reflexivity|]. apply wait_for_data_ready, Hr. reflexivity. }
  rewrite Hw.
  assert (Ha : 0 < client_available w).
  { unfold client_available. destruct (inbuf w); [contradiction | cbn [List.length]; lia]. }
  replace (client_available w =? 0) with false by (symmetry; apply Z.eqb_neq; lia).
  rewrite andb_false_r.
  assert (H2 : (if client_available w <? len1 then client_available w else len1) = n).
  { subst n. destruct (Z.ltb_spec (client_available w) len1); lia. }
  rewrite H2. unfold client_read.
  assert (Hl : Z.of_nat (List.length (firstn (Z.to_nat n) (inbuf w))) = n).
  { rewrite length_firstn. unfold client_available in *. lia. }
  rewrite Hl. rewrite wrap32_to_int32, wrap32_small by lia. reflexivity.
Qed.

(** ** Chunked reads on a well-formed body *)

Lemma to_int32_small : forall z, 0 <= z < 2 ^ 31 -> to_int32 z = z.
Proof.
  intros z H. unfold to_int32. rewrite Z.mod_small by lia.
  destruct (Z.ltb_spec z (2 ^ 31)); lia.
Qed.

Lemma clamp_len_unbounded : forall o len, size o <= 0 -> clamp_len o len = len.
Proof.
  intros o len H. unfold clamp_len.
  replace (size o >? 0) with false by (symmetry; rewrite Z.gtb_ltb; apply Z.ltb_ge; lia).
  reflexivity.
Qed.

Lemma not_at_declared_end :
  forall o, size o <= 0 -> (size o >? 0) && (pos o >=? size o) = false.
Proof.
  intros o H.
  replace (size o >? 0) with false by (symmetry; rewrite Z.gtb_ltb; apply Z.ltb_ge; lia).
  reflexivity.
Qed.

(** A request that ends inside the current chunk. *)
Lemma readChunked_inside :
  forall passes len nb p tail o w,
    in_chunk p tail (o, w) ->
    0 < len < Z.of_nat (List.length p) -> Z.of_nat (List.length p) < 2 ^ 31 ->
    exists s',
      readChunked (S passes) len nb (o, w)
      = Some (len, firstn (Z.to_nat len) p, s')
      /\ in_chunk (skipn (Z.to_nat len) p) tail s'.
Proof.
  intros passes len nb p tail o w (Hm & Hz & Hn & Hb & Hl) Hlen Hp.
  cbn [fst snd] in *. unfold readChunked.
  replace (len >? 0) with true by (symmetry; apply Z.gtb_lt; lia).
  rewrite Hn, wrap32_small by lia.
  replace (len >=? Z.of_nat (List.length p)) with false
    by (symmetry; rewrite Z.geb_leb; apply Z.leb_gt; lia).
  assert (Hav : client_available w
                = Z.of_nat (List.length p) + 2 + Z.of_nat (List.length tail)).
  { unfold client_available. rewrite Hb, length_app. cbn [List.length]. lia. }
  assert (H1 : 0 <= len < 2 ^ 32) by lia.
  assert (H2 : inbuf w <> []) by (rewrite Hb; destruct p; discriminate).
  assert (H4 : nb = false -> to_int32 (clamp_len o len) <= client_available w).
  { intros _. rewrite clamp_len_unbounded, to_int32_small by lia. lia. }
  rewrite (readInternal_ready passes len nb o w H1 H2 (not_at_declared_end o Hz) H4).
  rewrite clamp_len_unbounded by exact Hz.
  replace (Z.min len (client_available w)) with len by lia.
  cbv beta iota zeta. rewrite Z.add_0_l, wrap32_small by lia.
  eexists. split.
  - rewrite Hb, firstn_app.
    replace (Z.to_nat len - List.length p)%nat with 0%nat by lia.
    cbn [firstn]. rewrite app_nil_r. reflexivity.
  - unfold in_chunk. cbn [fst snd]. cbn [readImpl size next_chunk set_next_chunk set_pos].
    wsimpl. repeat split; try assumption.
    + rewrite Hn, to_int32_small by lia. rewrite length_skipn. lia.
    + rewrite skipn_app.
      replace (Z.to_nat len - List.length p)%nat with 0%nat by lia. reflexivity.
Qed.

(** A request that covers the rest of the current chunk: the rest is
    handed out, the delimiter checked and the next size line read. *)
Lemma readChunked_whole :
  forall passes len nb p tail cs o w,
    in_chunk p tail (o, w) -> chunked_body tail cs ->
    p <> [] -> Z.of_nat (List.length p) < 2 ^ 31 ->
    Z.of_nat (List.length p) <= len < 2 ^ 32 ->
    exists s',
      readChunked (S passes) len nb (o, w) = Some (Z.of_nat (List.length p), p, s')
      /\ body_state cs s'.
Proof.
  intros passes len nb p tail cs o w (Hm & Hz & Hn & Hb & Hl) Hbody Hne Hp Hlen.
  cbn [fst snd] in *.
  set (L := Z.of_nat (List.length p)) in *.
  assert (HL : 0 < L) by (subst L; destruct p; [contradiction | cbn [List.length]; lia]).
  unfold readChunked.
  replace (len >? 0) with true by (symmetry; apply Z.gtb_lt; lia).
  rewrite Hn, wrap32_small by lia.
  replace (len >=? L) with true by (symmetry; apply Z.geb_le; lia).
  replace (L =? 0) with false by (symmetry; apply Z.eqb_neq; lia).
  cbn [negb].
  assert (Hav : client_available w = L + 2 + Z.of_nat (List.length tail)).
  { unfold client_available. rewrite Hb, length_app. cbn [List.length]. lia. }
  assert (H1 : 0 <= L < 2 ^ 32) by lia.
  assert (H2 : inbuf w <> []) by (rewrite Hb; destruct p; discriminate).
  assert (H4 : nb = false -> to_int32 (clamp_len o L) <= client_available w).
  { intros _. rewrite clamp_len_unbounded, to_int32_small by lia. lia. }
  rewrite (readInternal_ready passes L nb o w H1 H2 (not_at_declared_end o Hz) H4).
  rewrite clamp_len_unbounded by exact Hz.
  replace (Z.min L (client_available w)) with L by lia.
  assert (Hf : firstn (Z.to_nat L) (inbuf w) = p).
  { rewrite Hb, firstn_app. subst L. rewrite Nat2Z.id, Nat.sub_diag, firstn_all.
    cbn [firstn]. apply app_nil_r. }
  assert (Hs : skipn (Z.to_nat L) (inbuf w) = CR :: LF :: tail).
  { rewrite Hb, skipn_app. subst L. rewrite Nat2Z.id, Nat.sub_diag, skipn_all.
    reflexivity. }
  rewrite Hf, Hs. cbv beta iota zeta.
  rewrite Z.add_0_l, wrap32_small by lia.
  cbn [next_chunk set_pos]. rewrite Hn, Z.sub_diag. change (to_int32 0) with 0.
  unfold chunk_boundary. cbn [next_chunk set_next_chunk Z.eqb].
  rewrite (verifyCrlf_buffered CR LF tail _ (set_inbuf (CR :: LF :: tail) w) eq_refl).
  rewrite !byte_eqb_refl. cbn [andb negb]. rewrite set_inbuf_set_inbuf.
  clear Hf Hs. clearbody L.
  inversion Hbody as [l Hcr Hsc E1 E2 | l c rest cs' Hcr Hc Hcl Hsc Hrest E1 E2]; subst.
  - rewrite (getChunkSize_line l [CR; LF] _ (set_inbuf (l ++ [CR; LF; CR; LF]) w) eq_refl Hcr). rewrite Hsc.
    cbn [Z.eqb negb]. change (to_int32 0) with 0.
    cbn [next_chunk set_next_chunk Z.ltb Z.compare]. rewrite set_inbuf_set_inbuf.
    eexists. split; [reflexivity|]. apply state_end. unfold at_end. cbn [fst snd].
    repeat split; assumption.
  - rewrite (getChunkSize_line l (c ++ CR :: LF :: rest) _
               (set_inbuf (l ++ CR :: LF :: c ++ CR :: LF :: rest) w) eq_refl Hcr). rewrite Hsc.
    cbn [Z.eqb negb]. rewrite to_int32_small by lia.
    cbn [next_chunk set_next_chunk]. rewrite set_inbuf_set_inbuf.
    replace (Z.of_nat (List.length c) <? 0) with false by (symmetry; apply Z.ltb_ge; lia).
    eexists. split; [reflexivity|].
    apply (state_in c rest cs'); try assumption.
    unfold in_chunk. cbn [fst snd]. repeat split; assumption.
Qed.

(** With nothing but the final delimiter left, a read returns 0 and closes
    the session. *)
Lemma readChunked_at_end :
  forall passes len nb s,
    at_end s -> 0 < len ->
    exists s',
      readChunked passes len nb s = Some (0, [], s')
      /\ eof (fst s') = true /\ isOpen s' = false.
Proof.
  intros passes len nb [o w] (Hm & Hn & Hb & Hl) Hlen. cbn [fst snd] in *.
  unfold readChunked.
  replace (len >? 0) with true by (symmetry; apply Z.gtb_lt; lia).
  rewrite Hn. change (wrap32 0) with 0.
  replace (len >=? 0) with true by (symmetry; apply Z.geb_le; lia).
  cbn [Z.eqb negb]. unfold chunk_boundary. rewrite Hn. cbn [Z.eqb].
  rewrite (verifyCrlf_buffered CR LF [] _ _ Hb).
  rewrite !byte_eqb_refl. cbn [andb negb].
  unfold getChunkSize.
  set (w1 := set_inbuf [] w).
  assert (Ha : client_available (wait_first_byte w1) = 0).
  { pose proof (while_yield_later_than 1500
                  (fun w0 => (client_available w0 =? 0)
                             && (to_int32 (wrap32 (millis w0 - millis w1)) <? 1500)) w1)
      as (_ & P & _ & _).
    fold (wait_first_byte w1) in P.
    assert (P1 : pending w1 = []) by (unfold pending, w1; cbn; rewrite Hl; reflexivity).
    rewrite P1 in P. unfold pending in P. apply app_eq_nil in P.
    unfold client_available. destruct P as [-> _]. reflexivity. }
  rewrite Ha. cbn [Z.eqb]. cbn [next_chunk set_next_chunk Z.ltb Z.compare].
  pose proof (close_sets_eof (set_next_chunk (-1) o, wait_first_byte w1)) as He.
  pose proof (close_disconnects (set_next_chunk (-1) o, wait_first_byte w1)) as Hd.
  destruct (close (set_next_chunk (-1) o, wait_first_byte w1)) as [c s2].
  cbn [snd] in He, Hd. exists s2. split; [reflexivity|]. split; [exact He|].
  apply isOpen_disconnected, Hd.
Qed.

Lemma read_variant_readChunked :
  forall nb passes len s,
    readImpl (fst s) = ReadChunked ->
    read_variant nb passes len s = readChunked passes len nb s.
Proof.
  intros nb passes len s H. destruct nb; cbn [read_variant read readNonBlock];
    unfold call_readImpl; rewrite H; reflexivity.
Qed.

Lemma body_state_chunked : forall cs s, body_state cs s -> readImpl (fst s) = ReadChunked.
Proof. intros cs s H. destruct H as [s H | p tail cs s _ _ H _]; apply H. Qed.

(** One call on a session that still has chunks to hand out: it returns
    the next bytes of the current chunk, at least one and no more than the
    request. *)
Lemma body_state_step :
  forall passes len nb p cs s,
    body_state (p :: cs) s -> 0 < len < 2 ^ 32 ->
    exists m s',
      (0 < m <= List.length p)%nat /\ Z.of_nat m <= len
      /\ read_variant nb (S passes) len s = Some (Z.of_nat m, firstn m p, s')
      /\ body_state (if (m <? List.length p)%nat then skipn m p :: cs else cs) s'.
Proof.
  intros passes len nb p cs [o w] H Hlen.
  rewrite (read_variant_readChunked _ _ _ _ (body_state_chunked _ _ H)).
  inversion H as [|p' tail cs' s' Hne Hp Hin Hbody E1 E2]; subst.
  assert (HL : (0 < List.length p)%nat)
    by (destruct p; [contradiction | cbn [List.length]; lia]).
  destruct (Z_lt_le_dec len (Z.of_nat (List.length p))) as [Hlt | Hge].
  - destruct (readChunked_inside passes len nb p tail o w Hin ltac:(lia) Hp)
      as (s' & E & Hin').
    exists (Z.to_nat len), s'. rewrite Z2Nat.id by lia.
    split; [lia|]. split; [lia|]. split; [exact E|].
    replace (Z.to_nat len <? List.length p)%nat with true
      by (symmetry; apply Nat.ltb_lt; lia).
    apply (state_in _ tail cs); try assumption.
    + intros E0. apply (f_equal (@List.length byte)) in E0.
      rewrite length_skipn in E0. cbn [List.length] in E0. lia.
    + rewrite length_skipn. lia.
  - destruct (readChunked_whole passes len nb p tail cs o w Hin Hbody Hne Hp ltac:(lia))
      as (s' & E & Hs').
    exists (List.length p), s'.
    split; [lia|]. split; [lia|]. rewrite firstn_all. split; [exact E|].
    rewrite Nat.ltb_irrefl. exact Hs'.
Qed.

(** Reading a well-formed body to its end gives the chunks, joined. *)
Lemma read_to_end_body_state :
  forall calls cs s lens nb passes i,
    body_state cs s ->
    (List.length (List.concat cs) < calls)%nat ->
    (forall j, 0 < lens j < 2 ^ 32) ->
    read_to_end calls lens nb (S passes) i s = Some (List.concat cs).
Proof.
  induction calls as [|calls IH]; intros cs s lens nb passes i Hs Hc Hlens; [lia|].
  cbn [read_to_end].
  destruct cs as [|p cs].
  - inversion Hs as [s0 He|]; subst.
    rewrite (read_variant_readChunked _ _ _ _ (body_state_chunked _ _ Hs)).
    destruct (readChunked_at_end (S passes) (lens i) (nb i) s He ltac:(apply Hlens))
      as (s' & -> & _).
    reflexivity.
  - destruct (body_state_step passes (lens i) (nb i) p cs s Hs (Hlens i))
      as (m & s' & Hm & Hml & -> & Hs').
    replace (Z.of_nat m =? 0) with false by (symmetry; apply Z.eqb_neq; lia).
    cbn [List.concat] in Hc. rewrite length_app in Hc.
    unfold returned. rewrite Nat2Z.id.
    rewrite firstn_all2 by (rewrite length_firstn; lia).
    rewrite (IH _ s' lens nb passes (S i) Hs' ); [| |exact Hlens].
    + unfold option_map. f_equal. cbn [List.concat].
      destruct (m <? List.length p)%nat eqn:E.
      * cbn [List.concat]. rewrite app_assoc, firstn_skipn. reflexivity.
      * apply Nat.ltb_ge in E. replace m with (List.length p) by lia.
        rewrite firstn_all. reflexivity.
    + destruct (m <? List.length p)%nat eqn:E.
      * cbn [List.concat]. rewrite length_app, length_skipn. lia.
      * lia.
Qed.

(** open on an OK response that announces chunked transfer and carries a
    well-formed body: it succeeds and leaves the session at the first
    chunk. *)
Lemma open_chunked_body :
  forall url o w sz alive body cs,
    server w (requests w) = mkResponse 200 (Some "chunked"%string) sz alive body [] ->
    - 2 ^ 31 <= sz <= 0 ->
    chunked_body body cs ->
    fst (open url (o, w)) = true /\ body_state cs (snd (open url (o, w))).
Proof.
  intros url o w sz alive body cs Hsrv Hsz Hbody. unfold open.
  destruct (http_GET (http_begin url w)) as [code w1] eqn:E.
  unfold http_GET in E. wsimpl. rewrite Hsrv in E. cbn [r_code r_alive r_body r_later r_te r_size] in E.
  injection E as <- <-.
  change (negb (200 =? HTTP_CODE_OK)) with false. cbv iota.
  replace (http_hasHeader _) with true by reflexivity.
  replace (http_header _) with "chunked"%string by reflexivity.
  change (("chunked" =? "chunked")%string) with true. cbv iota.
  assert (Hto : to_int32 sz = sz).
  { destruct (Z.eq_dec sz 0) as [-> | Hnz]; [reflexivity|].
    unfold to_int32.
    assert (Hmod : sz mod 2 ^ 32 = sz + 2 ^ 32)
      by (symmetry; apply Z.mod_unique with (q := -1); lia).
    rewrite Hmod. destruct (Z.ltb_spec (sz + 2 ^ 32) (2 ^ 31)); lia. }
  inversion Hbody as [l Hcr Hsc E1 E2 | l c rest cs' Hcr Hc Hcl Hsc Hrest E1 E2]; subst.
  - rewrite (getChunkSize_line l [CR; LF]) by first [exact Hcr | reflexivity]. rewrite Hsc.
    cbn [Z.eqb negb]. change (to_int32 0) with 0.
    cbn [next_chunk set_next_chunk Z.eqb]. cbn [fst snd].
    split; [reflexivity|]. apply state_end. unfold at_end. cbn [fst snd].
    repeat split.
  - rewrite (getChunkSize_line l (c ++ CR :: LF :: rest)) by first [exact Hcr | reflexivity]. rewrite Hsc.
    change (negb (1 =? 0)) with true. cbv iota. rewrite to_int32_small by lia.
    cbn [next_chunk set_next_chunk].
    replace (-1 =? Z.of_nat (List.length c)) with false by (symmetry; apply Z.eqb_neq; lia).
    cbn [fst snd]. split; [reflexivity|].
    apply (state_in c rest cs'); try assumption.
    unfold in_chunk, http_getSize. cbn [fst snd]. wsimpl. cbn [size set_size set_saveURL set_mode set_next_chunk set_pos readImpl next_chunk].
    rewrite Hto. repeat split. lia.
Qed.

(** The body of the round-trip test is well formed. *)
Lemma wiki_stream_well_formed : chunked_body wiki_stream [b "Wiki"; b "pedia"].
Proof.
  assert (N : forall l, l = b "4" \/ l = b "5" \/ l = b "0" -> ~ In CR l).
  { intros l [-> | [-> | ->]] [H | []]; discriminate H. }
  apply (body_chunk (b "4") (b "Wiki")); [apply N; tauto | discriminate | vm_compute; reflexivity | reflexivity |].
  apply (body_chunk (b "5") (b "pedia")); [apply N; tauto | discriminate | vm_compute; reflexivity | reflexivity |].
  apply (body_last (b "0")); [apply N; tauto | reflexivity].
Qed.

(** Any OK response that announces chunked transfer, declares no length and
    has a well-formed body in the socket: open succeeds, and reading to the
    end, with any positive request sizes and either variant at each call,
    hands over exactly the chunks, joined, and then returns 0. *)
Theorem chunked_body_round_trip :
  forall url o w sz alive body cs lens nb passes calls,
    server w (requests w) = mkResponse 200 (Some "chunked"%string) sz alive body [] ->
    - 2 ^ 31 <= sz <= 0 ->
    chunked_body body cs ->
    (forall j, 0 < lens j < 2 ^ 32) ->
    (List.length (List.concat cs) < calls)%nat ->
    fst (open url (o, w)) = true
    /\ read_to_end calls lens nb (S passes) 0 (snd (open url (o, w)))
       = Some (List.concat cs).
Proof.
  intros url o w sz alive body cs lens nb passes calls Hsrv Hsz Hbody Hlens Hcalls.
  destruct (open_chunked_body url o w sz alive body cs Hsrv Hsz Hbody) as [Hok Hst].
  split; [exact Hok|].
  apply read_to_end_body_state; assumption.
Qed.

Lemma chunked_body_round_trip_example :
  chunked_body wiki_stream [b "Wiki"; b "pedia"]
  /\ fst (open "http://h/w" (fresh wiki_world)) = true
  /\ read_to_end 10 (fun _ => 2) (fun _ => true) 1 0
       (snd (open "http://h/w" (fresh wiki_world)))
     = Some (b "Wiki" ++ b "pedia").
Proof.
  split; [exact wiki_stream_well_formed|].
  apply (chunked_body_round_trip "http://h/w" (AudioFileSourceHTTPStream raw_memory)
           wiki_world (-1) true wiki_stream [b "Wiki"; b "pedia"]
           (fun _ => 2) (fun _ => true) 0 10).
  - reflexivity.
  - lia.
  - exact wiki_stream_well_formed.
  - intros j. lia.
  - cbn. lia.
Defined.

(** ** The sender's coding is well formed *)





Lemma is_hex_plain :
  forall c, is_hex c ->
    is_space c = false /\ (byte_val c =? 45) = false /\ (byte_val c =? 43) = false
    /\ (byte_val c =? 120) = false /\ (byte_val c =? 88) = false /\ c <> CR.
Proof.
  intros c [d H]. unfold hex_digit in H. unfold is_space.
  assert (R : byte_val CR = 13) by reflexivity.
  assert (N : c <> CR -> c <> CR) by auto.
  destruct ((48 <=? byte_val c) && (byte_val c <=? 57)) eqn:E1;
    [|destruct ((97 <=? byte_val c) && (byte_val c <=? 102)) eqn:E2;
      [|destruct ((65 <=? byte_val c) && (byte_val c <=? 70)) eqn:E3; [|discriminate]]].
  all: match goal with
       | E : _ && _ = true |- _ => apply andb_prop in E; destruct E as [Ea Eb];
                                   apply Z.leb_le in Ea; apply Z.leb_le in Eb
       end.
  all: repeat split;
    try (apply Z.eqb_neq; lia);
    try (intros ->; rewrite R in *; lia).
  all: apply orb_false_iff; split; [apply Z.eqb_neq; lia|];
    apply andb_false_iff; first [left; apply Z.leb_gt; lia | right; apply Z.leb_gt; lia].
Qed.

Lemma c_string_plain :
  forall l, Forall (fun c => byte_val c <> 0) l -> c_string l = l.
Proof.
  induction 1 as [|c l Hc _ IH]; [reflexivity|]. cbn [c_string].
  replace (byte_val c =? 0) with false by (symmetry; apply Z.eqb_neq; exact Hc).
  rewrite IH. reflexivity.
Qed.

Lemma is_hex_not_nul : forall c, is_hex c -> byte_val c <> 0.
Proof.
  intros c [d H] E. unfold hex_digit in H. rewrite E in H. discriminate H.
Qed.

(** sscanf reads a line of hexadecimal digits as its value, when that fits
    in 32 bits. *)
Lemma sscanf_x_hex_line :
  forall l,
    l <> [] -> Forall is_hex l -> hex_digits 0 l < 2 ^ 32 ->
    sscanf_x l 0 = (1, hex_digits 0 l).
Proof.
  intros l Hne Hall Hv.
  assert (Hcs : c_string l = l).
  { apply c_string_plain. eapply Forall_impl; [|exact Hall].
    intros c. apply is_hex_not_nul. }
  unfold sscanf_x. rewrite Hcs.
  destruct l as [|c l]; [contradiction|].
  inversion Hall as [|c' l' Hc Hl]; subst.
  destruct (is_hex_plain c Hc) as (Hs & Hm & Hp & _).
  cbn [skip_spaces]. rewrite Hs, Hm, Hp.
  assert (H0x : skip_0x (c :: l) = c :: l).
  { unfold skip_0x. destruct l as [|x [|d l2]]; try reflexivity.
    inversion Hl as [|x' l'' Hx _]; subst.
    destruct (is_hex_plain x Hx) as (_ & _ & _ & H1 & H2 & _).
    rewrite H1, H2. cbn [orb]. rewrite andb_false_r. reflexivity. }
  rewrite H0x. destruct Hc as [d Hd]. rewrite Hd. unfold strtoul_16, ULONG_MAX.
  replace (hex_digits 0 (c :: l) >? 2 ^ 32 - 1) with false; [reflexivity|].
  symmetry. rewrite Z.gtb_ltb. apply Z.ltb_ge. lia.
Qed.





(** ** What a read that does not re-open the resource does to the object *)

Lemma same_settings_refl : forall o, same_settings o o.
Proof. intros o. repeat split. Qed.

Lemma same_settings_trans :
  forall o1 o2 o3, same_settings o1 o2 -> same_settings o2 o3 -> same_settings o1 o3.
Proof.
  unfold same_settings. intros o1 o2 o3 H1 H2.
  destruct H1 as (?&?&?&?&?&?&?), H2 as (?&?&?&?&?&?&?). repeat split; congruence.
Qed.

Lemma wrap32_add_to_int32 : forall a n, wrap32 (to_int32 (a + to_int32 n)) = wrap32 (a + n).
Proof.
  intros a n. rewrite wrap32_to_int32.
  destruct (to_int32_rep n) as [q E]. apply (wrap32_eq _ _ q). lia.
Qed.

Lemma close_object : forall o w, fst (snd (close (o, w))) = set_eof true o.
Proof. intros o w. reflexivity. Qed.

Lemma readInternal_connected_object :
  forall len nb o w,
    0 <= len < 2 ^ 32 ->
    match readInternal_connected len nb (o, w) with
    | Return n stored (o', w') =>
        same_settings o o' /\ eof o' = eof o /\ wrap32 (pos o') = wrap32 (pos o + n)
        /\ req (o', w') = req (o, w)
    | GotoRetry len' (o', w') =>
        same_settings o o' /\ pos o' = pos o /\ eof o' = true
        /\ req (o', w') = req (o, w)
    end.
Proof.
  intros len nb o w Hlen. unfold readInternal_connected.
  assert (Z0 : same_settings o o /\ eof o = eof o /\ wrap32 (pos o) = wrap32 (pos o + 0))
    by (rewrite Z.add_0_r; repeat split).
  destruct ((size o >? 0) && (pos o >=? size o)).
  { destruct Z0 as (A & B & C). repeat split; assumption. }
  pose proof (clamp_len_le o len ltac:(lia)) as Hc.
  set (len1 := clamp_len o len) in *.
  set (w1 := if negb nb then wait_for_data len1 w else w).
  assert (R1 : requests w1 = requests w).
  { subst w1. destruct nb; cbn [negb]; [reflexivity|].
    apply later_than_requests, wait_for_data_later_than. }
  destruct (client_available w1 =? 0) eqn:Ea.
  - destruct nb; cbn [negb andb].
    + destruct Z0 as (A & B & C). repeat split; assumption.
    + pose proof (close_requests (o, cb_st STATUS_NODATA "No stream data available" w1)) as Rc.
      pose proof (close_object o (cb_st STATUS_NODATA "No stream data available" w1)) as Oc.
      destruct (close (o, cb_st STATUS_NODATA "No stream data available" w1))
        as [c [o' w']]. cbn [fst snd] in Oc, Rc. subst o'.
      split; [repeat split|]. split; [reflexivity|]. split; [reflexivity|].
      rewrite Rc. unfold req. cbn [snd]. wsimpl. exact R1.
  - apply Z.eqb_neq in Ea. rewrite andb_false_r.
    set (len2 := if client_available w1 <? len1 then client_available w1 else len1).
    assert (H2 : 0 <= len2 <= len1 /\ len2 <= client_available w1).
    { subst len2. unfold client_available in *.
      destruct (Z.ltb_spec (Z.of_nat (List.length (inbuf w1))) len1); lia. }
    unfold client_read.
    assert (Hl : Z.of_nat (List.length (firstn (Z.to_nat len2) (inbuf w1))) = len2).
    { rewrite length_firstn. unfold client_available in H2. lia. }
    rewrite Hl. rewrite (wrap32_to_int32 len2), (wrap32_small len2) by lia.
    split; [repeat split|]. split; [reflexivity|].
    split; [apply wrap32_add_to_int32|].
    unfold req. cbn [snd]. wsimpl. exact R1.
Qed.

Lemma readInternal_pass_object :
  forall len nb o w,
    0 <= len < 2 ^ 32 ->
    match readInternal_pass len nb (o, w) with
    | Return n stored (o', w') =>
        req (o', w') = req (o, w) ->
        same_settings o o' /\ eof o' = eof o /\ wrap32 (pos o') = wrap32 (pos o + n)
    | GotoRetry len' (o', w') =>
        req (o', w') = req (o, w) ->
        same_settings o o' /\ pos o' = pos o /\ eof o' = true
    end.
Proof.
  intros len nb o w Hlen. unfold readInternal_pass. cbn [snd].
  destruct (http_connected w); cbn [negb].
  - pose proof (readInternal_connected_object len nb o w Hlen) as H.
    destruct (readInternal_connected len nb (o, w)) as [n st [o' w'] | l' [o' w']];
      intros _; tauto.
  - pose proof (reconnect_spec o w) as R. cbv zeta in R.
    destruct (reconnect (o, w)) as [g [o1 w1]]. cbn [fst snd] in R.
    destruct R as (Rle & _ & Rq). destruct g.
    + intros E. specialize (Rq E). injection Rq as -> _.
      rewrite Z.add_0_r. repeat split.
    + pose proof (readInternal_connected_object len nb o1 w1 Hlen) as H.
      destruct (readInternal_connected len nb (o1, w1)) as [n st [o' w'] | l' [o' w']];
        intros E; exfalso;
        (assert (E1 : req (o1, w1) = req (o, w)) by (destruct H as (_ & _ & _ & H); lia));
        specialize (Rq E1); discriminate Rq.
Qed.

(** A low-level read that issues no request changes the position by the
    number of bytes it returns, and of the other fields eof at most (which
    it can only set). *)
Lemma readInternal_object :
  forall fuel len nb o w n stored o' w',
    0 <= len < 2 ^ 32 ->
    readInternal fuel len nb (o, w) = Some (n, stored, (o', w')) ->
    req (o', w') = req (o, w) ->
    same_settings o o' /\ wrap32 (pos o') = wrap32 (pos o + n)
    /\ (eof o = true -> eof o' = true).
Proof.
  induction fuel as [|fuel IH]; intros len nb o w n stored o' w' Hlen H E;
    cbn [readInternal] in H; [discriminate|].
  pose proof (readInternal_pass_object len nb o w Hlen) as P.
  pose proof (readInternal_pass_spec len nb (o, w) Hlen) as Q.
  destruct (readInternal_pass len nb (o, w)) as [n1 st1 [o1 w1] | len1 [o1 w1]].
  - injection H as -> -> -> ->. destruct (P E) as (A & B & C).
    split; [exact A|]. split; [exact C|]. intros He. congruence.
  - destruct Q as (_ & Hl & Hr & _).
    assert (Hlen1 : 0 <= len1 < 2 ^ 32) by lia.
    destruct (readInternal_spec _ _ _ _ _ _ _ Hlen1 H) as (_ & _ & Hr2 & _).
    assert (E1 : req (o1, w1) = req (o, w)) by lia.
    assert (E2 : req (o', w') = req (o1, w1)) by lia.
    destruct (P E1) as (A & B & C).
    destruct (IH len1 nb o1 w1 n stored o' w' Hlen1 H E2) as (A2 & B2 & C2).
    split; [eapply same_settings_trans; eassumption|].
    split; [rewrite B2, B; reflexivity|]. intros _. apply C2, C.
Qed.

Lemma same_settings_session : forall o o', same_settings o o' -> same_session o o'.
Proof. unfold same_settings, same_session. intros o o' H. tauto. Qed.

Lemma chunk_boundary_object :
  forall p stored o w,
    let o' := fst (snd (chunk_boundary p stored (o, w))) in
    pos o' = pos o /\ same_session o o'.
Proof.
  intros p stored o w. unfold chunk_boundary.
  destruct (next_chunk o =? 0); [|cbn [fst snd]; repeat split].
  destruct (verifyCrlf_frame o w) as [Ho _].
  destruct (verifyCrlf (o, w)) as [ok [o1 w1]]. cbn [fst snd] in Ho. subst o1.
  destruct ok; cbn [negb]; [|cbn [fst snd]; repeat split].
  destruct (getChunkSize_frame o w1) as [Ho2 _].
  destruct (getChunkSize (o, w1)) as [n [o2 w2]]. cbn [fst snd] in Ho2. subst o2.
  destruct (next_chunk (set_next_chunk n o) <? 0); [|cbn [fst snd]; repeat split].
  pose proof (close_object (set_next_chunk n o) w2) as Hc.
  destruct (close (set_next_chunk n o, w2)) as [c [o3 w3]]. cbn [fst snd] in *.
  subst o3. repeat split.
Qed.

Lemma wrap32_add_l : forall a n, wrap32 (wrap32 a + n) = wrap32 (a + n).
Proof. intros a n. unfold wrap32. apply Zplus_mod_idemp_l. Qed.

(** How a chunked read that issues no request leaves the object. *)
Lemma readChunked_object :
  forall passes len nb o w n stored o' w',
    0 <= len < 2 ^ 32 ->
    readChunked passes len nb (o, w) = Some (n, stored, (o', w')) ->
    req (o', w') = req (o, w) ->
    wrap32 (pos o') = wrap32 (pos o + Z.of_nat (List.length stored))
    /\ same_session o o'
    /\ (0 <= next_chunk o < 2 ^ 31 ->
        Z.of_nat (List.length stored) < next_chunk o ->
        next_chunk o' = next_chunk o - Z.of_nat (List.length stored)
        /\ n = Z.of_nat (List.length stored)).
Proof.
  intros passes len nb o w n stored o' w' Hlen H E. unfold readChunked in H.
  pose proof (wrap32_range (next_chunk o)) as Hr.
  assert (Z0 : wrap32 (pos o) = wrap32 (pos o + Z.of_nat (@List.length byte [])))
    by (cbn [List.length]; rewrite Z.add_0_r; reflexivity).
  (* a low-level read followed by the bookkeeping of the count *)
  assert (Low : forall l n1 st1 o1 w1,
             0 <= l < 2 ^ 32 ->
             readInternal passes l nb (o, w) = Some (n1, st1, (o1, w1)) ->
             req (o1, w1) = req (o, w) ->
             wrap32 (pos o1) = wrap32 (pos o + Z.of_nat (List.length st1))
             /\ same_settings o o1 /\ Z.of_nat (List.length st1) = n1
             /\ 0 <= n1 <= l).
  { intros l n1 st1 o1 w1 Hl R E1.
    destruct (readInternal_spec _ _ _ _ _ _ _ Hl R) as (Hn & Hs & _ & _).
    destruct (readInternal_object _ _ _ _ _ _ _ _ _ Hl R E1) as (A & B & _).
    rewrite Hs. repeat split; try apply A; try assumption; lia. }
  destruct (len >? 0) eqn:E0.
  2:{ injection H as <- <- <- <-. split; [exact Z0|]. split; [repeat split|].
      intros _ _. cbn [List.length]. split; lia. }
  destruct (len >=? wrap32 (next_chunk o)) eqn:E1.
  - destruct (next_chunk o =? 0) eqn:E2; cbn [negb] in H.
    + pose proof (chunk_boundary_object 0 [] o w) as B.
      pose proof (chunk_boundary_spec 0 [] (o, w)) as S.
      destruct (chunk_boundary 0 [] (o, w)) as [[n1 st1] [o1 w1]].
      injection H as <- <- <- <-. cbn [fst snd] in B. destruct S as (_ & -> & _).
      destruct B as (Bp & Bs). split; [rewrite Bp; exact Z0|]. split; [exact Bs|].
      intros _ Hlt. apply Z.eqb_eq in E2. cbn [List.length] in Hlt. lia.
    + destruct (readInternal passes (wrap32 (next_chunk o)) nb (o, w))
        as [[[n1 st1] [o1 w1]]|] eqn:R; [|discriminate].
      set (o2 := set_next_chunk (to_int32 (next_chunk o1 - n1)) o1) in H.
      pose proof (chunk_boundary_object (wrap32 (0 + n1)) st1 o2 w1) as B.
      pose proof (chunk_boundary_spec (wrap32 (0 + n1)) st1 (o2, w1)) as S.
      destruct (chunk_boundary (wrap32 (0 + n1)) st1 (o2, w1)) as [[n2 st2] [o3 w3]] eqn:CB.
      injection H as <- <- <- <-. cbn [fst snd] in B. destruct S as (Sn & -> & Sr).
      assert (E3 : req (o1, w1) = req (o, w)) by (rewrite <- E; symmetry; exact Sr).
      destruct (Low _ _ _ _ _ Hr R E3) as (Lp & Ls & Ll & Ln).
      destruct B as (Bp & Bs).
      split; [rewrite Bp; exact Lp|].
      split.
      { apply same_settings_session in Ls. unfold same_session in *.
        subst o2. cbn [size is_chunked readImpl reconnectTries reconnectDelayMs saveURL
                       set_next_chunk] in Bs.
        destruct Ls as (?&?&?&?&?&?), Bs as (?&?&?&?&?&?). repeat split; congruence. }
      intros Hnc Hlt. rewrite Ll in *.
      assert (Hk : next_chunk o2 = next_chunk o - n1).
      { subst o2. cbn [next_chunk set_next_chunk].
        destruct Ls as (_ & -> & _). apply to_int32_small. lia. }
      unfold chunk_boundary in CB.
      replace (next_chunk o2 =? 0) with false in CB by (symmetry; apply Z.eqb_neq; lia).
      injection CB as <- <- _. rewrite wrap32_small by lia.
      split; [exact Hk | reflexivity].
  - destruct (readInternal passes len nb (o, w))
      as [[[n1 st1] [o1 w1]]|] eqn:R; [|discriminate].
    injection H as <- <- <- <-.
    assert (E3 : req (o1, w1) = req (o, w)) by exact E.
    destruct (Low _ _ _ _ _ Hlen R E3) as (Lp & Ls & Ll & Ln).
    split; [exact Lp|].
    split; [apply same_settings_session in Ls; exact Ls|].
    intros Hnc Hlt. rewrite wrap32_small by lia.
    cbn [next_chunk set_next_chunk]. destruct Ls as (_ & -> & _).
    rewrite Ll in *. split; [apply to_int32_small; lia | reflexivity].
Qed.

(** A read that does not re-open the resource advances the position by the
    number of bytes it has stored in the caller's buffer (the returned
    count in regular mode) and leaves size, mode, reconnect settings and
    saved URL as they were. *)
Theorem read_position_accounting :
  forall nb passes len o w n stored o' w',
    0 <= len < 2 ^ 32 ->
    read_variant nb passes len (o, w) = Some (n, stored, (o', w')) ->
    req (o', w') = req (o, w) ->
    getPos (o', w') = wrap32 (getPos (o, w) + Z.of_nat (List.length stored))
    /\ (readImpl o = ReadRegular -> n = Z.of_nat (List.length stored))
    /\ same_session o o'.
Proof.
  intros nb passes len o w n stored o' w' Hlen H E.
  unfold getPos. cbn [fst]. rewrite wrap32_add_l.
  assert (H' : call_readImpl passes len nb (o, w) = Some (n, stored, (o', w')))
    by (destruct nb; exact H).
  unfold call_readImpl in H'. cbn [fst] in H'.
  destruct (readImpl o) eqn:Em.
  - unfold readRegular in H'.
    destruct (readInternal_spec _ _ _ _ _ _ _ Hlen H') as (_ & Hs & _ & _).
    destruct (readInternal_object _ _ _ _ _ _ _ _ _ Hlen H' E) as (A & B & _).
    rewrite Hs. split; [exact B|]. split; [reflexivity|].
    apply same_settings_session, A.
  - destruct (readChunked_object _ _ _ _ _ _ _ _ _ Hlen H' E) as (A & B & _).
    split; [exact A|]. split; [discriminate | exact B].
Qed.

(** In chunked mode a read that does not re-open the resource and does not
    exhaust the current chunk takes exactly the bytes it returns off the
    remaining count. *)
Theorem chunk_count_accounting :
  forall nb passes len o w n stored o' w',
    readImpl o = ReadChunked ->
    0 <= len < 2 ^ 32 -> 0 <= next_chunk o < 2 ^ 31 ->
    read_variant nb passes len (o, w) = Some (n, stored, (o', w')) ->
    req (o', w') = req (o, w) ->
    Z.of_nat (List.length stored) < next_chunk o ->
    n = Z.of_nat (List.length stored)
    /\ next_chunk o' = next_chunk o - n
    /\ 0 < next_chunk o'.
Proof.
  intros nb passes len o w n stored o' w' Hm Hlen Hnc H E Hlt.
  rewrite read_variant_readChunked in H by exact Hm.
  destruct (readChunked_object _ _ _ _ _ _ _ _ _ Hlen H E) as (_ & _ & C).
  destruct (C Hnc Hlt) as [C1 C2]. split; [exact C2|]. rewrite C2. split; [exact C1 | lia].
Qed.

Lemma wiki_read_three :
  read_variant false 1 3 (fst (wiki_at 0), snd (wiki_at 0))
  = Some (3, b "Wik", (fst (wiki_at 3), snd (wiki_at 3))).
Proof. vm_compute. reflexivity. Qed.

Lemma read_position_accounting_example :
  read_variant false 1 3 (fst (wiki_at 0), snd (wiki_at 0))
  = Some (3, b "Wik", (fst (wiki_at 3), snd (wiki_at 3)))
  /\ getPos (fst (wiki_at 3), snd (wiki_at 3))
     = wrap32 (getPos (fst (wiki_at 0), snd (wiki_at 0)) + 3).
Proof.
  split; [exact wiki_read_three|].
  exact (proj1 (read_position_accounting false 1 3 _ _ 3 (b "Wik") _ _
                  ltac:(lia) wiki_read_three eq_refl)).
Defined.

Lemma chunk_count_accounting_example :
  next_chunk (fst (wiki_at 0)) = 4
  /\ read_variant false 1 3 (fst (wiki_at 0), snd (wiki_at 0))
     = Some (3, b "Wik", (fst (wiki_at 3), snd (wiki_at 3)))
  /\ next_chunk (fst (wiki_at 3)) = next_chunk (fst (wiki_at 0)) - 3.
Proof.
  split; [reflexivity|]. split; [exact wiki_read_three|].
  assert (H1 : 0 <= next_chunk (fst (wiki_at 0)) < 2 ^ 31) by (cbn; lia).
  assert (H2 : Z.of_nat (List.length (b "Wik")) < next_chunk (fst (wiki_at 0)))
    by (cbn; lia).
  exact (proj1 (proj2 (chunk_count_accounting false 1 3 (fst (wiki_at 0)) (snd (wiki_at 0))
                         3 (b "Wik") (fst (wiki_at 3)) (snd (wiki_at 3)) eq_refl
                         ltac:(lia) H1 wiki_read_three eq_refl H2))).
Defined.

(** ** Regular reads on a socket that holds data *)

Lemma read_variant_readInternal :
  forall nb passes len s,
    readImpl (fst s) = ReadRegular ->
    read_variant nb passes len s = readInternal passes len nb s.
Proof.
  intros nb passes len s H. destruct nb; cbn [read_variant read readNonBlock];
    unfold call_readImpl; rewrite H; reflexivity.
Qed.

(** In regular mode, when the socket already holds what is asked for, read
    returns it at once, exactly as readNonBlock does: the first
    min(len, available) bytes, len being the request after the size guard;
    the position grows by their number, and the clock, the bytes under way
    and the event record are untouched. *)
Theorem regular_read_of_buffered_bytes :
  forall nb passes len o w,
    readImpl o = ReadRegular ->
    0 <= len < 2 ^ 32 ->
    inbuf w <> [] ->
    (size o >? 0) && (pos o >=? size o) = false ->
    to_int32 (clamp_len o len) <= client_available w ->
    let n := Z.min (clamp_len o len) (client_available w) in
    let w' := set_inbuf (skipn (Z.to_nat n) (inbuf w)) w in
    read_variant nb (S passes) len (o, w)
    = Some (n, firstn (Z.to_nat n) (inbuf w),
            (set_pos (to_int32 (pos o + to_int32 n)) o, w'))
    /\ now w' = now w /\ later w' = later w /\ trace w' = trace w.
Proof.
  intros nb passes len o w Hm Hlen Hb Hsz Hr n w'.
  rewrite read_variant_readInternal by exact Hm.
  split; [|repeat split].
  apply readInternal_ready; try assumption. intros _. exact Hr.
Qed.

Lemma regular_read_of_buffered_bytes_example :
  let o := fst abc_session in
  let w := snd abc_session in
  inbuf w = b "abc"
  /\ read_variant false 1 2 (o, w)
     = Some (2, b "ab",
             (set_pos (to_int32 (pos o + to_int32 2)) o, set_inbuf (b "c") w)).
Proof.
  intros o w.
  assert (Hi : inbuf w = b "abc") by reflexivity.
  split; [exact Hi|].
  assert (H1 : readImpl o = ReadRegular) by reflexivity.
  assert (H2 : inbuf w <> []) by (rewrite Hi; discriminate).
  assert (H3 : (size o >? 0) && (pos o >=? size o) = false) by reflexivity.
  assert (H4 : to_int32 (clamp_len o 2) <= client_available w) by (vm_compute; discriminate).
  exact (proj1 (regular_read_of_buffered_bytes false 0 2 o w H1 ltac:(lia) H2 H3 H4)).
Defined.

(** At the declared end (size > 0 and pos >= size) a regular read on a
    connected transport returns 0 at once, in both variants, and changes
    nothing: no wait, no report, eof is not set and the session stays
    open. *)
Theorem regular_read_at_declared_end :
  forall nb passes len o w,
    readImpl o = ReadRegular ->
    http_connected w = true ->
    0 < size o -> size o <= pos o ->
    read_variant nb (S passes) len (o, w) = Some (0, [], (o, w)).
Proof.
  intros nb passes len o w Hm Hc Hs Hp.
  rewrite read_variant_readInternal by exact Hm.
  cbn [readInternal]. unfold readInternal_pass. cbn [snd]. rewrite Hc. cbn [negb].
  unfold readInternal_connected.
  replace (size o >? 0) with true by (symmetry; apply Z.gtb_lt; lia).
  replace (pos o >=? size o) with true by (symmetry; apply Z.geb_le; lia).
  reflexivity.
Qed.

(** The size guard of readInternal never shortens a request to the bytes
    that remain of the declared size: below the declared end, a regular
    read of [len] buffered bytes returns all of them, so that the position
    passes the declared size as soon as [len] exceeds what remained. *)
Theorem regular_read_ignores_declared_size :
  forall nb passes len o w,
    readImpl o = ReadRegular ->
    0 <= pos o < size o -> size o < 2 ^ 31 ->
    size o - pos o < len -> len < 2 ^ 31 ->
    len <= client_available w ->
    exists s',
      read_variant nb (S passes) len (o, w)
      = Some (len, firstn (Z.to_nat len) (inbuf w), s')
      /\ getPos s' = pos o + len
      /\ getSize s' = size o
      /\ getSize s' < getPos s'.
Proof.
  intros nb passes len o w Hm Hp Hs Hrem Hl Ha.
  assert (Hc : clamp_len o len = len).
  { unfold clamp_len. apply size_guard_lets_through; lia. }
  assert (Hb : inbuf w <> []).
  { unfold client_available in Ha. destruct (inbuf w); [cbn [List.length] in Ha; lia | discriminate]. }
  assert (Hsz : (size o >? 0) && (pos o >=? size o) = false).
  { replace (pos o >=? size o) with false
      by (symmetry; rewrite Z.geb_leb; apply Z.leb_gt; lia).
    apply andb_false_r. }
  rewrite read_variant_readInternal by exact Hm.
  rewrite readInternal_ready; try assumption; try lia.
  2:{ intros _. rewrite Hc, to_int32_small by lia. exact Ha. }
  rewrite Hc. replace (Z.min len (client_available w)) with len by lia.
  eexists. split; [reflexivity|].
  unfold getPos, getSize. cbn [fst pos size set_pos].
  rewrite wrap32_add_to_int32, !wrap32_small by lia. repeat split. lia.
Qed.

Lemma regular_read_ignores_declared_size_example :
  let o := fst oversized_session in
  let w := snd oversized_session in
  size o = 10 /\ pos o = 0 /\ client_available w = 20
  /\ exists s',
       read_variant false 1 15 (o, w) = Some (15, firstn 15 (inbuf w), s')
       /\ getPos s' = 15 /\ getSize s' = 10.
Proof.
  intros o w.
  assert (H1 : size o = 10) by reflexivity.
  assert (H2 : pos o = 0) by reflexivity.
  assert (H3 : client_available w = 20) by reflexivity.
  split; [exact H1|]. split; [exact H2|]. split; [exact H3|].
  destruct (regular_read_ignores_declared_size false 0 15 o w eq_refl
              ltac:(rewrite H1, H2; lia) ltac:(rewrite H1; lia)
              ltac:(rewrite H1, H2; lia) ltac:(lia) ltac:(rewrite H3; lia))
    as (s' & E & P & S & _).
  exists s'. rewrite H2 in P. rewrite H1 in S. repeat split; assumption.
Defined.

Lemma regular_read_at_declared_end_example :
  let o := set_pos 10 (fst oversized_session) in
  let w := snd oversized_session in
  size o = 10 /\ pos o = 10 /\ client_available w = 20
  /\ read_variant false 1 4 (o, w) = Some (0, [], (o, w)).
Proof.
  intros o w. split; [reflexivity|]. split; [reflexivity|]. split; [reflexivity|].
  apply (regular_read_at_declared_end false 0 4 o w eq_refl eq_refl);
    [reflexivity | discriminate].
Defined.

(** ** Blocking requests that do not wait *)



(** ** A chunk that is not followed by its delimiter *)

(** When the two bytes after the payload of the current chunk are not
    CR LF, the read that takes the last bytes of the chunk stores them in
    the caller's buffer and advances the position, but returns 0: the
    bytes are lost to the caller.  The two bytes are consumed, a line goes
    to the logger, the remaining count is left at 0 and the session is not
    closed. *)
Theorem chunk_without_delimiter_returns_zero :
  forall nb passes len p a c rest o w,
    readImpl o = ReadChunked -> size o <= 0 ->
    next_chunk o = Z.of_nat (List.length p) ->
    p <> [] -> Z.of_nat (List.length p) < 2 ^ 31 ->
    Z.of_nat (List.length p) <= len < 2 ^ 32 ->
    inbuf w = p ++ a :: c :: rest ->
    ~ (a = CR /\ c = LF) ->
    exists o' w',
      read_variant nb (S passes) len (o, w) = Some (0, p, (o', w'))
      /\ returned (0, p, (o', w')) = []
      /\ getPos (o', w') = wrap32 (getPos (o, w) + Z.of_nat (List.length p))
      /\ next_chunk o' = 0 /\ eof o' = eof o
      /\ inbuf w' = rest
      /\ trace w'
         = EvLog "Couldn't read CRLF after chunk, something is wrong !!" :: trace w.
Proof.
  intros nb passes len p a c rest o w Hm Hz Hn Hne Hp Hlen Hb Hbad.
  rewrite read_variant_readChunked by exact Hm.
  set (L := Z.of_nat (List.length p)) in *.
  assert (HL : 0 < L) by (subst L; destruct p; [contradiction | cbn [List.length]; lia]).
  unfold readChunked.
  replace (len >? 0) with true by (symmetry; apply Z.gtb_lt; lia).
  rewrite Hn, wrap32_small by lia.
  replace (len >=? L) with true by (symmetry; apply Z.geb_le; lia).
  replace (L =? 0) with false by (symmetry; apply Z.eqb_neq; lia).
  cbn [negb].
  assert (Hav : client_available w = L + 2 + Z.of_nat (List.length rest)).
  { unfold client_available. rewrite Hb, length_app. cbn [List.length]. lia. }
  assert (H1 : 0 <= L < 2 ^ 32) by lia.
  assert (H2 : inbuf w <> []) by (rewrite Hb; destruct p; discriminate).
  assert (H4 : nb = false -> to_int32 (clamp_len o L) <= client_available w).
  { intros _. rewrite clamp_len_unbounded, to_int32_small by lia. lia. }
  rewrite (readInternal_ready passes L nb o w H1 H2 (not_at_declared_end o Hz) H4).
  rewrite clamp_len_unbounded by exact Hz.
  replace (Z.min L (client_available w)) with L by lia.
  assert (Hf : firstn (Z.to_nat L) (inbuf w) = p).
  { rewrite Hb, firstn_app. subst L. rewrite Nat2Z.id, Nat.sub_diag, firstn_all.
    cbn [firstn]. apply app_nil_r. }
  assert (Hs : skipn (Z.to_nat L) (inbuf w) = a :: c :: rest).
  { rewrite Hb, skipn_app. subst L. rewrite Nat2Z.id, Nat.sub_diag, skipn_all.
    reflexivity. }
  rewrite Hf, Hs. cbv beta iota zeta.
  rewrite Z.add_0_l, wrap32_small by lia.
  cbn [next_chunk set_pos]. rewrite Hn, Z.sub_diag. change (to_int32 0) with 0.
  unfold chunk_boundary. cbn [next_chunk set_next_chunk Z.eqb].
  rewrite (verifyCrlf_buffered a c rest _ (set_inbuf (a :: c :: rest) w) eq_refl).
  assert (Hneq : byte_eqb a CR && byte_eqb c LF = false).
  { destruct (byte_eqb a CR) eqn:Ea; [|reflexivity].
    destruct (byte_eqb c LF) eqn:Ec; [|reflexivity].
    exfalso. apply Hbad. split; apply Byte.byte_dec_bl; assumption. }
  rewrite Hneq. cbn [negb].
  eexists. eexists. split; [reflexivity|].
  split; [reflexivity|].
  split.
  { unfold getPos. cbn [fst pos set_pos set_next_chunk].
    rewrite wrap32_add_to_int32, wrap32_add_l. reflexivity. }
  repeat split.
Qed.

Lemma chunk_without_delimiter_example :
  let o := fst (wiki_at 0) in
  let w := set_inbuf (b "WikiXYpedia") (snd (wiki_at 0)) in
  next_chunk o = 4
  /\ exists o' w',
       read_variant true 1 100 (o, w) = Some (0, b "Wiki", (o', w'))
       /\ getPos (o', w') = 4 /\ inbuf w' = b "pedia".
Proof.
  intros o w. split; [reflexivity|].
  destruct (chunk_without_delimiter_returns_zero true 0 100 (b "Wiki") "X"%byte "Y"%byte
              (b "pedia") o w eq_refl ltac:(cbn; lia) eq_refl ltac:(discriminate)
              ltac:(cbn; lia) ltac:(cbn; lia) eq_refl
              ltac:(intros [H _]; discriminate H))
    as (o' & w' & E & _ & P & _ & _ & I & _).
  exists o', w'. split; [exact E|]. split; [exact P | exact I].
Defined.

(** ** open *)

Lemma substring_length :
  forall s n, (String.length (String.substring 0 n s) <= n)%nat.
Proof.
  induction s as [|c s IH]; intros n; destruct n; cbn; try lia.
  specialize (IH n). lia.
Qed.

Lemma substring_short :
  forall s n, (String.length s <= n)%nat -> String.substring 0 n s = s.
Proof.
  induction s as [|c s IH]; intros n H; destruct n; cbn in *; try reflexivity; try lia.
  rewrite IH by lia. reflexivity.
Qed.

Lemma open_regular_eq :
  forall url o w,
    r_code (server w (requests w)) = HTTP_CODE_OK ->
    r_te (server w (requests w)) <> Some "chunked"%string ->
    exists msg,
      open url (o, w)
      = (true,
         (set_saveURL (String.substring 0 (saveURL_size - 1) url)
            (set_size (to_int32 (r_size (server w (requests w))))
               (set_mode false ReadRegular (set_pos 0 o))),
          audioLogger_printf msg (snd (http_GET (http_begin url w))))).
Proof.
  intros url o w Hcode Hte. unfold open.
  destruct (http_GET (http_begin url w)) as [code w1] eqn:E.
  assert (Ec : code = r_code (server w (requests w))).
  { unfold http_GET in E. injection E as <- _. reflexivity. }
  assert (Eh : hdr_te w1 = r_te (server w (requests w))).
  { unfold http_GET in E. injection E as _ <-. reflexivity. }
  assert (Es : http_getSize w1 = r_size (server w (requests w))).
  { unfold http_GET in E. injection E as _ <-. reflexivity. }
  rewrite Ec, Hcode. change (negb (HTTP_CODE_OK =? HTTP_CODE_OK)) with false. cbv iota.
  cbn [snd].
  destruct (http_hasHeader w1) eqn:Hh.
  - destruct (String.eqb_spec
                (http_header (audioLogger_printf ("Transfer-Encoding: " ++ http_header w1) w1))
                "chunked") as [Heq | Hneq].
    + exfalso. apply Hte. rewrite <- Eh. unfold http_header in Heq. wsimpl.
      unfold http_hasHeader in Hh. destruct (hdr_te w1); [congruence | discriminate].
    + eexists. unfold http_getSize in *. wsimpl. rewrite Es. reflexivity.
  - eexists. unfold http_getSize in *. wsimpl. rewrite Es. reflexivity.
Qed.

(** open on an OK response without chunked transfer: it succeeds; the
    position is 0, the size the declared one, the mode regular; the URL is
    saved, cut to 127 characters; the remaining count, eof and the reconnect
    settings stay; one request was issued and the socket holds the body. *)
Theorem open_regular_session :
  forall url o w,
    r_code (server w (requests w)) = HTTP_CODE_OK ->
    r_te (server w (requests w)) <> Some "chunked"%string ->
    let r := server w (requests w) in
    let o' := fst (snd (open url (o, w))) in
    let w' := snd (snd (open url (o, w))) in
    fst (open url (o, w)) = true
    /\ pos o' = 0 /\ size o' = to_int32 (r_size r)
    /\ readImpl o' = ReadRegular /\ is_chunked o' = false
    /\ saveURL o' = String.substring 0 127 url
    /\ (String.length (saveURL o') <= 127)%nat
    /\ ((String.length url <= 127)%nat -> saveURL o' = url)
    /\ next_chunk o' = next_chunk o /\ eof o' = eof o
    /\ reconnectTries o' = reconnectTries o
    /\ reconnectDelayMs o' = reconnectDelayMs o
    /\ connected w' = r_alive r /\ inbuf w' = r_body r /\ later w' = r_later r
    /\ requests w' = S (requests w) /\ now w' = now w.
Proof.
  intros url o w Hcode Hte r o' w'. subst o' w'.
  destruct (open_regular_eq url o w Hcode Hte) as [msg ->].
  cbn [fst snd]. cbn [pos size readImpl is_chunked saveURL next_chunk eof reconnectTries
                      reconnectDelayMs set_saveURL set_size set_mode set_pos].
  change (saveURL_size - 1)%nat with 127%nat.
  repeat split; try apply substring_length; try apply substring_short.
Qed.

Lemma open_regular_session_example :
  r_code (server abc_world (requests abc_world)) = HTTP_CODE_OK
  /\ fst (open "http://h/abc" (fresh abc_world)) = true
  /\ saveURL (fst (snd (open "http://h/abc" (fresh abc_world)))) = "http://h/abc"%string
  /\ inbuf (snd (snd (open "http://h/abc" (fresh abc_world)))) = b "abc".
Proof.
  assert (H1 : r_code (server abc_world (requests abc_world)) = HTTP_CODE_OK) by reflexivity.
  assert (H2 : r_te (server abc_world (requests abc_world)) <> Some "chunked"%string)
    by discriminate.
  pose proof (open_regular_session "http://h/abc" (AudioFileSourceHTTPStream raw_memory)
                abc_world H1 H2) as H.
  cbv zeta in H.
  destruct H as (A & _ & _ & _ & _ & _ & _ & U & _ & _ & _ & _ & _ & I & _).
  split; [exact H1|]. split; [exact A|]. split; [apply U; cbn; lia | exact I].
Defined.

(** open on a response whose status is not OK: it fails; the HTTP session
    is ended and the request-failed status reported; the position is 0 and
    every other field of the object, the saved URL among them, is as it
    was. *)
Theorem open_refused :
  forall url o w,
    r_code (server w (requests w)) <> HTTP_CODE_OK ->
    let o' := fst (snd (open url (o, w))) in
    let w' := snd (snd (open url (o, w))) in
    fst (open url (o, w)) = false
    /\ o' = set_pos 0 o
    /\ http_connected w' = false /\ pending w' = []
    /\ requests w' = S (requests w) /\ now w' = now w
    /\ trace w'
       = EvStatus STATUS_HTTPFAIL "Can't open HTTP request"
           :: EvEnd :: EvGET :: EvBegin url :: trace w.
Proof.
  intros url o w H o' w'. subst o' w'. rewrite (open_not_ok url o w H).
  cbn [fst snd]. repeat split.
Qed.

Lemma open_refused_example :
  r_code (server (world_serving quiet_server) 0) <> HTTP_CODE_OK
  /\ fst (open "http://h/q" (fresh (world_serving quiet_server))) = false
  /\ http_connected (snd (snd (open "http://h/q" (fresh (world_serving quiet_server)))))
     = false.
Proof.
  assert (H : r_code (server (world_serving quiet_server)
                             (requests (world_serving quiet_server))) <> HTTP_CODE_OK)
    by discriminate.
  pose proof (open_refused "http://h/q" (AudioFileSourceHTTPStream raw_memory)
                (world_serving quiet_server) H) as R.
  cbv zeta in R. destruct R as (A & _ & C & _).
  split; [exact H|]. split; [exact A | exact C].
Defined.

(** open does not assign eof: on an object that was closed, isOpen stays
    false after open, whatever the response, and so after a successful
    open too. *)
Theorem open_after_close_is_not_open :
  forall url s,
    let s1 := snd (close s) in
    isOpen (snd (open url s1)) = false
    /\ eof (fst (snd (open url s1))) = true.
Proof.
  intros url s s1.
  assert (E : eof (fst (snd (open url s1))) = true).
  { destruct s1 as [o1 w1] eqn:E1. rewrite open_eof.
    replace o1 with (fst s1) by (rewrite E1; reflexivity). apply close_sets_eof. }
  split; [|exact E].
  destruct (snd (open url s1)) as [o2 w2]. cbn [fst] in E. unfold isOpen. rewrite E.
  apply andb_false_r.
Qed.

(** ** The reconnect policy *)

Lemma now_advance : forall k w, now (advance k w) = now w + Z.of_nat k.
Proof. intros k w. unfold advance. destruct (elapse k (later w)). reflexivity. Qed.

Lemma now_delay : forall ms w, now (delay ms w) = now w + wrap32 ms.
Proof.
  intros ms w. unfold delay. rewrite now_advance. wsimpl.
  pose proof (wrap32_range ms). lia.
Qed.

Lemma reconnect_loop_all_refused_time :
  forall n i o w,
    (forall k, r_code (server w (requests w + k)) <> HTTP_CODE_OK) ->
    let s' := reconnect_loop n i (o, w) in
    now (snd s') = now w + Z.of_nat n * wrap32 (reconnectDelayMs o)
    /\ reconnectDelayMs (fst s') = reconnectDelayMs o
    /\ (n <> 0%nat -> fst s' = set_pos 0 o).
Proof.
  induction n as [|n IH]; intros i o w Hall; cbn [reconnect_loop].
  - cbv zeta. cbn [fst snd]. repeat split; [lia | congruence].
  - set (w1 := delay _ _).
    assert (F : frame w1 = frame (emit (EvDelay (reconnectDelayMs o))
                                    (cb_st STATUS_RECONNECTING (reconnect_msg i) w)))
      by apply delay_frame.
    assert (Hs : server w1 = server w) by (apply frame_server in F; exact F).
    assert (Hr : requests w1 = requests w) by (apply frame_requests in F; exact F).
    assert (Hn : now w1 = now w + wrap32 (reconnectDelayMs o))
      by (subst w1; rewrite now_delay; reflexivity).
    assert (Hno : r_code (server w1 (requests w1)) <> HTTP_CODE_OK).
    { rewrite Hs, Hr. specialize (Hall 0%nat). rewrite Nat.add_0_r in Hall. exact Hall. }
    rewrite (open_not_ok (saveURL o) o w1 Hno). cbv iota.
    set (w2 := cb_st _ _ _).
    assert (Hs2 : server w2 = server w) by (subst w2; cbn; exact Hs).
    assert (Hr2 : requests w2 = S (requests w)) by (subst w2; cbn; rewrite Hr; reflexivity).
    assert (Hn2 : now w2 = now w1) by reflexivity.
    destruct (IH (i + 1) (set_pos 0 o) w2) as (T & D & P).
    + intros k. rewrite Hs2, Hr2. specialize (Hall (S k)).
      replace (S (requests w) + k)%nat with (requests w + S k)%nat by lia. exact Hall.
    + cbv zeta in *. cbn [reconnectDelayMs set_pos] in *.
      split; [rewrite T, Hn2, Hn; lia|]. split; [exact D|]. intros _.
      destruct n as [|n]; [reflexivity|]. rewrite P by discriminate. reflexivity.
Qed.

(** A low-level read that finds the transport disconnected while the
    resource refuses every request: it makes exactly reconnectTries
    attempts, sleeping reconnectDelayMs before each, then reports that it
    is unable to reconnect and returns 0, the transport still
    disconnected. *)
Theorem reconnect_attempts_exhausted :
  forall passes len nb o w,
    http_connected w = false ->
    (forall k, r_code (server w (requests w + k)) <> HTTP_CODE_OK) ->
    exists o' w',
      readInternal (S passes) len nb (o, w) = Some (0, [], (o', w'))
      /\ requests w' = (requests w + Z.to_nat (reconnectTries o))%nat
      /\ now w' = now w + Z.of_nat (Z.to_nat (reconnectTries o)) * wrap32 (reconnectDelayMs o)
      /\ http_connected w' = false
      /\ hd_error (trace w') = Some (EvStatus STATUS_DISCONNECTED "Unable to reconnect")
      /\ (0 < reconnectTries o -> o' = set_pos 0 o)
      /\ (reconnectTries o <= 0 -> o' = o).
Proof.
  intros passes len nb o w Hc Hall.
  set (w0 := http_end (cb_st STATUS_DISCONNECTED "Stream disconnected" w)).
  set (n := Z.to_nat (reconnectTries o)).
  destruct (reconnect_loop_all_refused n 0 o w0 Hall eq_refl) as (Rq & C & _).
  destruct (reconnect_loop_all_refused_time n 0 o w0 Hall) as (T & _ & P).
  cbv zeta in Rq, C, T, P.
  assert (R : reconnect (o, w)
              = (true, (fst (reconnect_loop n 0 (o, w0)),
                        cb_st STATUS_DISCONNECTED "Unable to reconnect"
                          (snd (reconnect_loop n 0 (o, w0)))))).
  { unfold reconnect. fold w0. fold n.
    destruct (reconnect_loop n 0 (o, w0)) as [o1 w1]. cbn [fst snd] in *.
    rewrite C. reflexivity. }
  assert (Cd : http_connected (snd (snd (reconnect (o, w)))) = false)
    by (rewrite R; exact C).
  rewrite (readInternal_disconnected passes len nb (o, w) Hc Cd). rewrite R. cbn [snd].
  eexists. eexists. split; [reflexivity|].
  split; [exact Rq|]. split; [exact T|]. split; [exact C|]. split; [reflexivity|].
  split.
  - intros H. apply P. subst n. lia.
  - intros H. subst n. replace (Z.to_nat (reconnectTries o)) with 0%nat by lia.
    reflexivity.
Qed.

Lemma reconnect_attempts_exhausted_example :
  let o := SetReconnect 3 100 (AudioFileSourceHTTPStream raw_memory) in
  let w := world_serving quiet_server in
  http_connected w = false
  /\ exists o' w',
       readInternal 1 4 false (o, w) = Some (0, [], (o', w'))
       /\ requests w' = 3%nat /\ now w' = 300.
Proof.
  intros o w.
  assert (H1 : http_connected w = false) by reflexivity.
  assert (H2 : forall k, r_code (server w (requests w + k)) <> HTTP_CODE_OK)
    by (intros k; discriminate).
  split; [exact H1|].
  destruct (reconnect_attempts_exhausted 0 4 false o w H1 H2)
    as (o' & w' & E & R & T & _).
  exists o', w'. split; [exact E|]. split; [exact R | exact T].
Defined.

Lemma readInternal_connected_buffered :
  forall len nb o w,
    0 <= len < 2 ^ 32 ->
    inbuf w <> [] ->
    (size o >? 0) && (pos o >=? size o) = false ->
    (nb = false -> to_int32 (clamp_len o len) <= client_available w) ->
    let n := Z.min (clamp_len o len) (client_available w) in
    readInternal_connected len nb (o, w)
    = Return n (firstn (Z.to_nat n) (inbuf w))
             (set_pos (to_int32 (pos o + to_int32 n)) o,
              set_inbuf (skipn (Z.to_nat n) (inbuf w)) w).
Proof.
  intros len nb o w Hlen Hb Hsz Hr n.
  pose proof (readInternal_ready 0 len nb o w Hlen Hb Hsz Hr) as H. cbv zeta in H.
  cbn [readInternal] in H. unfold readInternal_pass in H. cbn [snd] in H.
  rewrite (http_connected_buffered w Hb) in H. cbn [negb] in H.
  destruct (readInternal_connected len nb (o, w)) as [n1 st1 s1 | l1 s1];
    [|discriminate].
  injection H as -> -> ->. reflexivity.
Qed.

(** A non-blocking low-level read that finds the transport disconnected and
    has its first reconnect attempt answered OK (regular mode, no declared
    length, some bytes in the socket): it sleeps once, issues one request,
    reports the reconnect and returns the first bytes of the new body.  The
    position restarts: after the call it is the number of bytes of this
    call, whatever it was before. *)
Theorem reconnect_restarts_position :
  forall passes len o w,
    0 <= len < 2 ^ 32 ->
    http_connected w = false ->
    0 < reconnectTries o ->
    let r := server w (requests w) in
    r_code r = HTTP_CODE_OK -> r_te r <> Some "chunked"%string ->
    - 2 ^ 31 <= r_size r <= 0 -> r_body r <> [] ->
    let n := Z.min len (Z.of_nat (List.length (r_body r))) in
    exists o' w',
      readInternal (S passes) len true (o, w)
      = Some (n, firstn (Z.to_nat n) (r_body r), (o', w'))
      /\ getPos (o', w') = n
      /\ requests w' = S (requests w)
      /\ now w' = now w + wrap32 (reconnectDelayMs o)
      /\ In (EvStatus STATUS_RECONNECTED "Stream reconnected") (trace w').
Proof.
  intros passes len o w Hlen Hc Ht r Hcode Hte Hsz Hbody n.
  cbn [readInternal]. unfold readInternal_pass. cbn [snd]. rewrite Hc. cbn [negb].
  unfold reconnect.
  destruct (Z.to_nat (reconnectTries o)) as [|k] eqn:Ek; [lia|].
  cbn [reconnect_loop].
  set (w1 := delay _ _).
  assert (F : frame w1
              = frame (emit (EvDelay (reconnectDelayMs o))
                         (cb_st STATUS_RECONNECTING (reconnect_msg 0)
                            (http_end (cb_st STATUS_DISCONNECTED "Stream disconnected" w)))))
    by apply delay_frame.
  assert (Hs : server w1 = server w) by (apply frame_server in F; exact F).
  assert (Hr : requests w1 = requests w) by (apply frame_requests in F; exact F).
  assert (Hn : now w1 = now w + wrap32 (reconnectDelayMs o))
    by (subst w1; rewrite now_delay; reflexivity).
  assert (Hcode1 : r_code (server w1 (requests w1)) = HTTP_CODE_OK)
    by (rewrite Hs, Hr; exact Hcode).
  assert (Hte1 : r_te (server w1 (requests w1)) <> Some "chunked"%string)
    by (rewrite Hs, Hr; exact Hte).
  destruct (open_regular_eq (saveURL o) o w1 Hcode1 Hte1) as [msg ->]. cbv iota.
  rewrite Hs, Hr. fold r.
  set (w2 := cb_st STATUS_RECONNECTED "Stream reconnected" _).
  assert (Hi : inbuf w2 = r_body r).
  { subst w2. unfold http_GET. wsimpl. rewrite Hs, Hr. reflexivity. }
  assert (Hb : inbuf w2 <> []) by (rewrite Hi; exact Hbody).
  rewrite (http_connected_buffered w2 Hb). cbn [negb].
  set (o2 := set_saveURL _ _).
  assert (Hz : size o2 <= 0).
  { subst o2. cbn [size set_saveURL set_size].
    destruct (Z.eq_dec (r_size r) 0) as [-> | Hnz]; [cbn; lia|].
    unfold to_int32.
    assert (Hmod : r_size r mod 2 ^ 32 = r_size r + 2 ^ 32)
      by (symmetry; apply Z.mod_unique with (q := -1); lia).
    rewrite Hmod. destruct (Z.ltb_spec (r_size r + 2 ^ 32) (2 ^ 31)); lia. }
  rewrite (readInternal_connected_buffered len true o2 w2 Hlen Hb
             (not_at_declared_end o2 Hz) ltac:(discriminate)).
  rewrite clamp_len_unbounded by exact Hz.
  unfold client_available. rewrite Hi. fold n.
  eexists. eexists. split; [reflexivity|].
  assert (Hn0 : 0 <= n < 2 ^ 32) by (subst n; lia).
  split.
  { unfold getPos. cbn [fst pos set_pos]. subst o2.
    cbn [pos set_saveURL set_size set_mode set_pos].
    rewrite wrap32_add_to_int32. apply wrap32_small. lia. }
  split; [subst w2; unfold http_GET; wsimpl; rewrite Hr; reflexivity|].
  split; [subst w2; unfold http_GET; wsimpl; exact Hn|].
  subst w2. wsimpl. left. reflexivity.
Qed.

Lemma reconnect_restarts_position_example :
  let o := set_pos 1000 (fst abc_session) in
  let w := snd (hangup abc_session) in
  http_connected w = false /\ getPos (o, w) = 1000
  /\ exists o' w',
       readInternal 1 2 true (o, w) = Some (2, b "de", (o', w'))
       /\ getPos (o', w') = 2.
Proof.
  intros o w.
  assert (H1 : http_connected w = false) by reflexivity.
  split; [exact H1|]. split; [reflexivity|].
  destruct (reconnect_restarts_position 0 2 o w ltac:(lia) H1 ltac:(cbn; lia)
              eq_refl ltac:(discriminate) ltac:(cbn; lia) ltac:(discriminate))
    as (o' & w' & E & P & _).
  exists o', w'. split; [exact E | exact P].
Defined.

(** ** Size lines and delimiters *)

Lemma sscanf_x_blank :
  forall l, Forall (fun c => is_space c = true) l -> sscanf_x l 0 = (EOF, 0).
Proof.
  intros l H.
  assert (Hcs : c_string l = l).
  { apply c_string_plain. eapply Forall_impl; [|exact H].
    intros c Hc E. unfold is_space in Hc. rewrite E in Hc. discriminate Hc. }
  unfold sscanf_x. rewrite Hcs. clear Hcs.
  assert (E : skip_spaces l = []).
  { induction H as [|c l Hc _ IH]; [reflexivity|]. cbn [skip_spaces]. rewrite Hc. exact IH. }
  rewrite E. reflexivity.
Qed.

Lemma sscanf_x_no_number :
  forall c l,
    byte_val c <> 0 ->
    is_space c = false -> byte_val c <> 45 -> byte_val c <> 43 -> hex_digit c = None ->
    sscanf_x (c :: l) 0 = (0, 0).
Proof.
  intros c l Hz Hs Hm Hp Hd. unfold sscanf_x. cbn [c_string].
  replace (byte_val c =? 0) with false by (symmetry; apply Z.eqb_neq; exact Hz).
  cbn [skip_spaces]. rewrite Hs.
  replace (byte_val c =? 45) with false by (symmetry; apply Z.eqb_neq; exact Hm).
  replace (byte_val c =? 43) with false by (symmetry; apply Z.eqb_neq; exact Hp).
  assert (H0 : (byte_val c =? 48) = false).
  { apply Z.eqb_neq. intros E. unfold hex_digit in Hd. rewrite E in Hd. discriminate Hd. }
  assert (Hx : forall l0, skip_0x (c :: l0) = c :: l0).
  { intros l0. unfold skip_0x. destruct l0 as [|x [|d l2]]; try reflexivity.
    rewrite H0. reflexivity. }
  rewrite Hx, Hd. reflexivity.
Qed.

Lemma hex_digit_range : forall c d, hex_digit c = Some d -> 0 <= d < 16.
Proof.
  intros c d H. unfold hex_digit in H.
  destruct ((48 <=? byte_val c) && (byte_val c <=? 57)) eqn:E1;
    [|destruct ((97 <=? byte_val c) && (byte_val c <=? 102)) eqn:E2;
      [|destruct ((65 <=? byte_val c) && (byte_val c <=? 70)) eqn:E3; [|discriminate]]].
  all: match goal with
       | E : _ && _ = true |- _ => apply andb_prop in E; destruct E as [Ea Eb];
                                   apply Z.leb_le in Ea; apply Z.leb_le in Eb
       end.
  all: injection H as <-; lia.
Qed.

Lemma hex_digits_bound :
  forall l a,
    Forall is_hex l -> 0 <= a ->
    0 <= hex_digits a l < (a + 1) * 16 ^ Z.of_nat (List.length l).
Proof.
  induction l as [|c l IH]; intros a H Ha.
  - cbn [hex_digits List.length Z.of_nat]. lia.
  - inversion H as [|c' l' [d Hd] Hl]; subst. cbn [hex_digits]. rewrite Hd.
    pose proof (hex_digit_range c d Hd) as Hr.
    pose proof (IH (a * 16 + d) Hl ltac:(lia)) as B.
    replace (Z.of_nat (List.length (c :: l))) with (1 + Z.of_nat (List.length l))
      by (cbn [List.length]; lia).
    rewrite Z.pow_add_r by lia.
    pose proof (Z.pow_pos_nonneg 16 (Z.of_nat (List.length l)) ltac:(lia) ltac:(lia)).
    nia.
Qed.

(** getChunkSize on a socket that holds a size line and its CR LF: the
    line is consumed through the LF, no time passes and nothing else
    changes.  A line of one to eight hexadecimal digits gives the [int] of
    those 32 bits, which is their value when that is below 2^31; a line
    that starts with a byte that is no digit, sign, white space or NUL
    gives -1. *)
Theorem getChunkSize_reads_size_line :
  forall l rest o w,
    inbuf w = l ++ CR :: LF :: rest -> ~ In CR l ->
    snd (getChunkSize (o, w)) = (o, set_inbuf rest w)
    /\ (l <> [] -> Forall is_hex l -> (List.length l <= 8)%nat ->
        fst (getChunkSize (o, w)) = to_int32 (hex_digits 0 l)
        /\ (hex_digits 0 l < 2 ^ 31 -> fst (getChunkSize (o, w)) = hex_digits 0 l))
    /\ (forall c l', l = c :: l' ->
          byte_val c <> 0 -> is_space c = false ->
          byte_val c <> 45 -> byte_val c <> 43 -> hex_digit c = None ->
          fst (getChunkSize (o, w)) = -1).
Proof.
  intros l rest o w Hb Hn. rewrite (getChunkSize_line l rest o w Hb Hn). cbn [fst snd].
  split; [reflexivity|]. split.
  - intros Hne Hh Hl.
    pose proof (hex_digits_bound l 0 Hh ltac:(lia)) as B.
    assert (P : 16 ^ Z.of_nat (List.length l) <= 2 ^ 32).
    { change (2 ^ 32) with (16 ^ 8). apply Z.pow_le_mono_r; lia. }
    rewrite (sscanf_x_hex_line l Hne Hh) by lia.
    change (negb (1 =? 0)) with true. cbv iota.
    split; [reflexivity|]. intros Hv. apply to_int32_small. lia.
  - intros c l' -> Hz Hs Hm Hp Hd. rewrite (sscanf_x_no_number c l' Hz Hs Hm Hp Hd).
    reflexivity.
Qed.

Lemma getChunkSize_reads_size_line_example :
  let w := set_inbuf (b "1A" ++ CR :: LF :: b "rest") (world_serving quiet_server) in
  getChunkSize (raw_memory, w) = (26, (raw_memory, set_inbuf (b "rest") w)).
Proof.
  intros w.
  assert (Hb : inbuf w = b "1A" ++ CR :: LF :: b "rest") by reflexivity.
  assert (Hn : ~ In CR (b "1A")) by (intros [H | [H | []]]; discriminate H).
  destruct (getChunkSize_reads_size_line (b "1A") (b "rest") raw_memory w Hb Hn)
    as (S & V & _).
  rewrite (surjective_pairing (getChunkSize (raw_memory, w))). rewrite S.
  assert (Hne : b "1A" <> []) by discriminate.
  assert (Hh : Forall is_hex (b "1A")) by (repeat constructor; eexists; reflexivity).
  assert (Hl : (List.length (b "1A") <= 8)%nat) by (vm_compute; lia).
  destruct (V Hne Hh Hl) as [_ V2]. rewrite V2; [reflexivity|].
  vm_compute. reflexivity.
Defined.

(** An empty size line, or one of white space only, is read as a chunk of
    size 0 and not as a failure: sscanf reports EOF for it, which the test
    of its result takes for success. *)
Theorem getChunkSize_blank_line_is_zero :
  forall l rest o w,
    inbuf w = l ++ CR :: LF :: rest -> ~ In CR l ->
    Forall (fun c => is_space c = true) l ->
    getChunkSize (o, w) = (0, (o, set_inbuf rest w)).
Proof.
  intros l rest o w Hb Hn Hs. rewrite (getChunkSize_line l rest o w Hb Hn).
  rewrite (sscanf_x_blank l Hs). reflexivity.
Qed.

Lemma getChunkSize_blank_line_example :
  let w := set_inbuf (CR :: LF :: b "rest") (world_serving quiet_server) in
  getChunkSize (raw_memory, w) = (0, (raw_memory, set_inbuf (b "rest") w)).
Proof.
  intros w.
  apply (getChunkSize_blank_line_is_zero [] (b "rest") raw_memory w eq_refl);
    [intros [] | constructor].
Defined.

(** verifyCrlf on a socket that holds two bytes or more consumes exactly
    two, does not wait, and answers true exactly when they are CR LF. *)
Theorem verifyCrlf_checks_two_bytes :
  forall a c rest o w,
    inbuf w = a :: c :: rest ->
    snd (verifyCrlf (o, w)) = (o, set_inbuf rest w)
    /\ (fst (verifyCrlf (o, w)) = true <-> a = CR /\ c = LF).
Proof.
  intros a c rest o w Hb. rewrite (verifyCrlf_buffered a c rest o w Hb). cbn [fst snd].
  split; [reflexivity|]. split.
  - intros H. apply andb_prop in H. destruct H as [H1 H2].
    split; apply Byte.byte_dec_bl; assumption.
  - intros [-> ->]. rewrite !byte_eqb_refl. reflexivity.
Qed.

Lemma verifyCrlf_checks_two_bytes_example :
  let w := set_inbuf (CR :: LF :: b "5") (world_serving quiet_server) in
  fst (verifyCrlf (raw_memory, w)) = true
  /\ snd (verifyCrlf (raw_memory, w)) = (raw_memory, set_inbuf (b "5") w).
Proof.
  intros w.
  destruct (verifyCrlf_checks_two_bytes CR LF (b "5") raw_memory w eq_refl) as [S I].
  split; [apply I; split; reflexivity | exact S].
Defined.

Lemma wait_first_byte_empty_1500 :
  forall w,
    client_available (wait_first_byte w) = 0 ->
    now (wait_first_byte w) = now w + 1500.
Proof.
  intros w Ha. pose proof (wait_first_byte_exits w) as X. cbv zeta in X.
  rewrite Ha in X. cbn [Z.eqb andb] in X. apply Z.ltb_ge in X.
  unfold wait_first_byte in *.
  destruct (while_yield_now 1500
              (fun w0 => (client_available w0 =? 0)
                         && (to_int32 (wrap32 (millis w0 - millis w)) <? 1500)) w)
    as (k & Hk & E).
  unfold millis in X at 1. rewrite E in X. unfold millis in X.
  rewrite elapsed_1500 in X by lia. rewrite E. lia.
Qed.

(** getChunkSize on a socket that is empty and has nothing under way:
    it waits the whole 1500 ms, then returns -1; the object and the rest of
    the world are untouched. *)
Theorem getChunkSize_times_out :
  forall o w,
    pending w = [] ->
    exists w',
      getChunkSize (o, w) = (-1, (o, w'))
      /\ now w' = now w + 1500
      /\ pending w' = [] /\ frame w' = frame w.
Proof.
  intros o w Hp. unfold getChunkSize.
  pose proof (while_yield_later_than 1500
                (fun w0 => (client_available w0 =? 0)
                           && (to_int32 (wrap32 (millis w0 - millis w)) <? 1500)) w)
    as (F & P & _ & _).
  fold (wait_first_byte w) in F, P.
  assert (Ha : client_available (wait_first_byte w) = 0).
  { rewrite Hp in P. unfold pending in P. apply app_eq_nil in P.
    unfold client_available. destruct P as [-> _]. reflexivity. }
  rewrite Ha. cbn [Z.eqb].
  exists (wait_first_byte w). split; [reflexivity|].
  split; [apply wait_first_byte_empty_1500, Ha|]. split; [congruence | exact F].
Qed.

Lemma getChunkSize_times_out_example :
  pending (world_serving quiet_server) = []
  /\ exists w',
       getChunkSize (raw_memory, world_serving quiet_server) = (-1, (raw_memory, w'))
       /\ now w' = 1500.
Proof.
  split; [reflexivity|].
  destruct (getChunkSize_times_out raw_memory (world_serving quiet_server) eq_refl)
    as (w' & E & N & _).
  exists w'. split; [exact E | exact N].
Defined.

(** ** Data that arrives during the wait *)

Lemma while_yield_arrival :
  forall d cond fuel w bs rest,
    (d < fuel)%nat ->
    later w = (S d, bs) :: rest ->
    (forall k w', (k <= d)%nat -> inbuf w' = inbuf w ->
                  now w' = now w + Z.of_nat k -> cond w' = true) ->
    (forall w', inbuf w' = inbuf w ++ bs ++ fst (elapse 0 rest) -> cond w' = false) ->
    let w1 := while_yield fuel cond w in
    inbuf w1 = inbuf w ++ bs ++ fst (elapse 0 rest)
    /\ later w1 = snd (elapse 0 rest)
    /\ now w1 = now w + Z.of_nat (S d)
    /\ frame w1 = frame w.
Proof.
  induction d as [|d IH]; intros cond fuel w bs rest Hf Hl Ht Hx.
  - destruct fuel as [|f]; [lia|]. cbn [while_yield].
    rewrite (Ht 0%nat w) by first [lia | reflexivity].
    assert (Y : inbuf (yield w) = inbuf w ++ bs ++ fst (elapse 0 rest)
                /\ later (yield w) = snd (elapse 0 rest)
                /\ now (yield w) = now w + 1 /\ frame (yield w) = frame w).
    { unfold yield, advance. rewrite Hl. cbn [elapse Nat.leb Nat.sub].
      destruct (elapse 0 rest) as [a r]. cbn. repeat split; try reflexivity. }
    destruct Y as (Yi & Yl & Yn & Yf).
    assert (E : while_yield f cond (yield w) = yield w).
    { destruct f; [reflexivity|]. cbn [while_yield]. rewrite (Hx _ Yi). reflexivity. }
    cbv zeta. rewrite E.
    split; [exact Yi | split; [exact Yl | split; [rewrite Yn; lia | exact Yf]]].
  - destruct fuel as [|f]; [lia|]. cbn [while_yield].
    rewrite (Ht 0%nat w) by first [lia | reflexivity].
    assert (Y : inbuf (yield w) = inbuf w
                /\ later (yield w) = (S d, bs) :: rest
                /\ now (yield w) = now w + 1 /\ frame (yield w) = frame w).
    { unfold yield, advance. rewrite Hl. cbn [elapse Nat.leb Nat.sub].
      cbn. rewrite app_nil_r. repeat split; try reflexivity. }
    destruct Y as (Yi & Yl & Yn & Yf).
    destruct (IH cond f (yield w) bs rest ltac:(lia) Yl) as (I & L & N & F).
    + intros k w' Hk Hi Hn. apply (Ht (S k) w'); [lia | congruence | lia].
    + intros w' Hi. apply Hx. congruence.
    + cbv zeta. rewrite I, L, N, F, Yi, Yn, Yf.
      split; [reflexivity | split; [reflexivity | split; [lia | reflexivity]]].
Qed.

(** A blocking read on a connected session with an empty socket, when
    the next bytes arrive [d] ms later, [d] at most 500, and are [len] or
    more: the read waits exactly [d] ms and returns the first [len] bytes
    that arrived; the session stays connected and no status is reported. *)
Theorem blocking_read_waits_for_arrival :
  forall passes len o w d bs rest,
    0 < len < 2 ^ 31 ->
    connected w = true -> inbuf w = [] -> later w = (d, bs) :: rest ->
    (0 < d <= 500)%nat -> len <= Z.of_nat (List.length bs) ->
    size o <= 0 ->
    exists w',
      readInternal (S passes) len false (o, w)
      = Some (len, firstn (Z.to_nat len) bs,
              (set_pos (to_int32 (pos o + len)) o, w'))
      /\ now w' = now w + Z.of_nat d
      /\ pending w' = skipn (Z.to_nat len) (pending w)
      /\ frame w' = frame w.
Proof.
  intros passes len o w d bs rest Hlen Hc Hi Hl Hd Hb Hs.
  destruct d as [|d]; [lia|].
  assert (T : to_int32 len = len) by (apply to_int32_small; lia).
  assert (A : let w1 := wait_for_data len w in
              inbuf w1 = inbuf w ++ bs ++ fst (elapse 0 rest)
              /\ later w1 = snd (elapse 0 rest)
              /\ now w1 = now w + Z.of_nat (S d)
              /\ frame w1 = frame w).
  { unfold wait_for_data. cbv zeta.
    apply (while_yield_arrival d); [lia | exact Hl | |].
    - intros k w' Hk Hi' Hn. unfold client_available. rewrite Hi', Hi, T.
      change (Z.of_nat (List.length (@nil byte))) with 0.
      replace (0 <? len) with true by (symmetry; apply Z.ltb_lt; lia).
      rewrite andb_true_l.
      unfold millis. rewrite Hn, elapsed_500 by lia. apply Z.ltb_lt. lia.
    - intros w' Hi'. unfold client_available. rewrite Hi', Hi, T.
      rewrite app_nil_l, length_app.
      replace (_ <? len) with false; [reflexivity|]. symmetry. apply Z.ltb_ge. lia. }
  cbv zeta in A.
  remember (wait_for_data len w) as w1 eqn:Ew1.
  destruct A as (Ai & Al & An & Af).
  rewrite Hi, app_nil_l in Ai.
  assert (Hg : (size o >? 0) && (pos o >=? size o) = false).
  { replace (size o >? 0) with false; [reflexivity|].
    symmetry. rewrite Z.gtb_ltb. apply Z.ltb_ge. exact Hs. }
  assert (Hcl : clamp_len o len = len).
  { unfold clamp_len. replace (size o >? 0) with false; [reflexivity|].
    symmetry. rewrite Z.gtb_ltb. apply Z.ltb_ge. exact Hs. }
  assert (Hav : len <= client_available w1).
  { unfold client_available. rewrite Ai, length_app. lia. }
  exists (set_inbuf (skipn (Z.to_nat len) (inbuf w1)) w1).
  split; [|split; [|split]].
  - cbn [readInternal]. unfold readInternal_pass. cbn [snd].
    unfold http_connected, client_connected. rewrite Hc. rewrite orb_true_l.
    change (negb true) with false. cbv iota.
    unfold readInternal_connected. rewrite Hg, Hcl.
    change (negb false) with true. cbv iota. rewrite <- Ew1.
    replace (client_available w1 =? 0) with false by (symmetry; apply Z.eqb_neq; lia).
    rewrite andb_false_r.
    replace (client_available w1 <? len) with false by (symmetry; apply Z.ltb_ge; lia).
    unfold client_read.
    assert (Hfl : Z.of_nat (List.length (firstn (Z.to_nat len) (inbuf w1))) = len).
    { rewrite length_firstn. unfold client_available in Hav. lia. }
    rewrite Hfl, T. rewrite wrap32_small by lia.
    assert (Hfb : firstn (Z.to_nat len) (inbuf w1) = firstn (Z.to_nat len) bs).
    { rewrite Ai, firstn_app.
      replace (Z.to_nat len - List.length bs)%nat with 0%nat by lia.
      cbn [firstn]. apply app_nil_r. }
    rewrite Hfb. reflexivity.
  - exact An.
  - unfold pending.
    change (inbuf (set_inbuf (skipn (Z.to_nat len) (inbuf w1)) w1))
      with (skipn (Z.to_nat len) (inbuf w1)).
    change (later (set_inbuf (skipn (Z.to_nat len) (inbuf w1)) w1)) with (later w1).
    rewrite Al, Ai, Hi, Hl. cbn [app map snd List.concat].
    rewrite <- (elapse_pending rest 0).
    assert (K : forall x, skipn (Z.to_nat len) (bs ++ x) = skipn (Z.to_nat len) bs ++ x).
    { intros x. rewrite skipn_app.
      replace (Z.to_nat len - List.length bs)%nat with 0%nat by lia. reflexivity. }
    rewrite !K, app_assoc. reflexivity.
  - rewrite <- Af. reflexivity.
Qed.

Lemma blocking_read_waits_for_arrival_example :
  let w := set_socket true [] [(200%nat, b "abc")] (world_serving quiet_server) in
  exists w',
    readInternal 1 2 false (raw_memory, w)
    = Some (2, b "ab", (set_pos 2 raw_memory, w'))
    /\ now w' = 200.
Proof.
  intros w.
  assert (H1 : 0 < 2 < 2 ^ 31) by (split; reflexivity).
  assert (H2 : (0 < 200 <= 500)%nat) by lia.
  assert (H3 : 2 <= Z.of_nat (List.length (b "abc"))) by (vm_compute; discriminate).
  assert (H4 : size raw_memory <= 0) by (vm_compute; discriminate).
  destruct (blocking_read_waits_for_arrival 0 2 raw_memory w 200 (b "abc") []
              H1 eq_refl eq_refl eq_refl H2 H3 H4) as (w' & E & N & _).
  exists w'. split; [exact E | exact N].
Defined.

(** ** The non-blocking variant at the end of a chunk *)






